(** * Data table: responsive column selection and column derivation

    A shallow embedding of the column logic of the data-table component
    ([updateResponsiveColumns], [parseMinWidth], [deriveColumnsFromData],
    [capitalizeHeader], [guessType], [guessFilterType]) together with the
    properties its specification states about them.

    Conventions of the embedding.
    - JavaScript strings are [string]s (sequences of code units below 256).
    - Pixel widths are JavaScript numbers that hold integers; they are
      modelled in [Z], exact as long as the values stay within the range
      where doubles represent integers exactly.
    - [NaN] as the result of [parseInt] is [None].
    - An optional property ([mustShow?], [minWidth?]) is an [option];
      truthiness tests are written out. *)

From Stdlib Require Import ZArith String Ascii List Sorted Permutation Lia Bool.
From stdpp Require Import base tactics list sorting.
Import ListNotations.

Local Open Scope string_scope.
Local Open Scope list_scope.
Local Open Scope Z_scope.

(** ** Data model *)

Inductive ColumnType : Type :=
  | TString | TDate | TNumber | TBoolean | TCustom | TActions.

Inductive FilterType : Type :=
  | FText | FNumeric | FDate | FBoolean | FCustom.

(** [ColumnDefinition<T>], restricted to the properties that the column
    logic reads or writes. *)
Record ColumnDefinition : Type := mkColumn {
  field      : string;
  header     : string;
  type       : option ColumnType;
  filterable : option bool;
  filterType : option FilterType;
  mustShow   : option bool;
  minWidth   : option string
}.

(** Truthiness of an optional boolean property ([if (col.mustShow)]). *)
Definition truthy (b : option bool) : bool :=
  match b with Some true => true | _ => false end.

(** [col.minWidth || "100px"]: [undefined] and the empty string are falsy. *)
Definition minWidthOrDefault (m : option string) : string :=
  match m with
  | None => "100px"
  | Some EmptyString => "100px"
  | Some s => s
  end.

(** ** [parseInt(s, 10)] *)

Definition codeOf (c : ascii) : Z := Z.of_N (N_of_ascii c).

(** White space and line terminators skipped by [parseInt]:
    TAB, LF, VT, FF, CR, SP and NBSP. *)
Definition isStrWhiteSpaceChar (c : ascii) : bool :=
  let n := codeOf c in
  ((9 <=? n) && (n <=? 13)) || (n =? 32) || (n =? 160).

Fixpoint trimStart (s : string) : string :=
  match s with
  | String c s' => if isStrWhiteSpaceChar c then trimStart s' else s
  | EmptyString => EmptyString
  end.

Definition isDigit (c : ascii) : bool :=
  let n := codeOf c in (48 <=? n) && (n <=? 57).

Definition digitValue (c : ascii) : Z := codeOf c - 48.

(** The longest prefix of decimal digits. *)
Fixpoint digitPrefix (s : string) : list ascii :=
  match s with
  | String c s' => if isDigit c then c :: digitPrefix s' else []
  | EmptyString => []
  end.

(** The number a run of digits writes. The code holds it in a double,
    which is this number as long as it is at most [2 ^ 53]. *)
Definition digitsValue (ds : list ascii) : Z :=
  fold_left (fun acc c => 10 * acc + digitValue c) ds 0.

(** [parseInt(s, 10)]: skip leading white space, read an optional sign,
    then the longest run of decimal digits; no digit gives [NaN]. *)
Definition parseInt (s : string) : option Z :=
  let t := trimStart s in
  let '(sign, body) :=
    match t with
    | String "-"%char r => (-1, r)
    | String "+"%char r => (1, r)
    | _ => (1, t)
    end in
  match digitPrefix body with
  | [] => None
  | ds => Some (sign * digitsValue ds)
  end.

(** [parseMinWidth]: defaults to 100 if parsing fails. *)
Definition parseMinWidth (minWidth : string) : Z :=
  match parseInt minWidth with
  | None => 100
  | Some parsed => parsed
  end.

(** The width a column asks for:
    [this.parseMinWidth(col.minWidth || "100px")]. *)
Definition colMinWidth (col : ColumnDefinition) : Z :=
  parseMinWidth (minWidthOrDefault (minWidth col)).

(** ** [updateResponsiveColumns] *)

(** The two locals of the method: [currentVisibleColumns] and
    [accumulatedWidth]. *)
Definition Selection : Type := (list ColumnDefinition * Z)%type.

(** Body of the first [forEach]: columns marked [mustShow]. *)
Definition pass1_step (st : Selection) (col : ColumnDefinition) : Selection :=
  let '(currentVisibleColumns, accumulatedWidth) := st in
  if truthy (mustShow col)
  then (currentVisibleColumns ++ [col], accumulatedWidth + colMinWidth col)
  else st.

Definition pass1 (allMasterColumns : list ColumnDefinition) : Selection :=
  fold_left pass1_step allMasterColumns ([], 0).

(** [currentVisibleColumns.find((c) => c.field === col.field)] *)
Definition findByField (cols : list ColumnDefinition) (f : string)
  : option ColumnDefinition :=
  find (fun c => String.eqb (field c) f) cols.

(** Body of the second [forEach]: the other columns, if space allows. *)
Definition pass2_step (tableWidth : Z) (st : Selection) (col : ColumnDefinition)
  : Selection :=
  let '(currentVisibleColumns, accumulatedWidth) := st in
  if negb (truthy (mustShow col)) then
    match findByField currentVisibleColumns (field col) with
    | None =>
        let w := colMinWidth col in
        if tableWidth >? accumulatedWidth + w
        then (currentVisibleColumns ++ [col], accumulatedWidth + w)
        else st
    | Some _ => st
    end
  else st.

Definition pass2 (tableWidth : Z) (allMasterColumns : list ColumnDefinition)
  (st : Selection) : Selection :=
  fold_left (pass2_step tableWidth) allMasterColumns st.

(** [arr.findIndex(p)]: the first index satisfying [p], or [-1]. *)
Fixpoint findIndex {A} (p : A -> bool) (l : list A) : Z :=
  match l with
  | [] => -1
  | x :: l' =>
      if p x then 0
      else let r := findIndex p l' in if r <? 0 then -1 else 1 + r
  end.

Definition masterIndex (allMasterColumns : list ColumnDefinition) (f : string) : Z :=
  findIndex (fun masterCol => String.eqb (field masterCol) f) allMasterColumns.

(** The comparator handed to [sort]: [indexA - indexB]. *)
Definition compareColumns (allMasterColumns : list ColumnDefinition)
  (a b : ColumnDefinition) : Z :=
  masterIndex allMasterColumns (field a) - masterIndex allMasterColumns (field b).

(** [Array.prototype.sort(cmp)] is a stable sort: for a comparator that
    is a consistent ordering its result is the stable sorted arrangement,
    which insertion from the right computes. *)
Fixpoint sortInsert {A} (cmp : A -> A -> Z) (x : A) (l : list A) : list A :=
  match l with
  | [] => [x]
  | y :: l' => if cmp x y <=? 0 then x :: y :: l' else y :: sortInsert cmp x l'
  end.

Fixpoint sort {A} (cmp : A -> A -> Z) (l : list A) : list A :=
  match l with
  | [] => []
  | x :: l' => sortInsert cmp x (sort cmp l')
  end.

(** ** Column derivation: [capitalizeHeader], [guessType], [guessFilterType] *)

(** The values a record can hold, as far as [typeof] and [instanceof Date]
    tell them apart. *)
Inductive JsNumber : Type :=
  | NumNaN
  | NumInfinity (negative : bool)
  | NumFinite (mantissa exponent : Z).

Inductive JsValue : Type :=
  | VUndefined
  | VNull
  | VBoolean (b : bool)
  | VNumber (n : JsNumber)
  | VBigInt (z : Z)
  | VString (s : string)
  | VSymbol
  | VDate (time : JsNumber)
  | VObject.

(** A record, as [Object.keys] enumerates it: its own keys in order, each
    with its value. *)
Definition JsRecord : Type := list (string * JsValue).

Definition keys (r : JsRecord) : list string := map fst r.

(** [firstItem[key]] *)
Definition getProp (r : JsRecord) (key : string) : JsValue :=
  match find (fun kv => String.eqb (fst kv) key) r with
  | Some kv => snd kv
  | None => VUndefined
  end.

(** [[A-Z]] *)
Definition isUpperAZ (c : ascii) : bool :=
  let n := codeOf c in (65 <=? n) && (n <=? 90).

(** [header.replace(/([A-Z])/g, " $1")] *)
Fixpoint insertSpaces (s : string) : string :=
  match s with
  | EmptyString => EmptyString
  | String c s' =>
      if isUpperAZ c
      then String " " (String c (insertSpaces s'))
      else String c (insertSpaces s')
  end.

Definition charAt0 (s : string) : string :=
  match s with
  | EmptyString => EmptyString
  | String c _ => String c EmptyString
  end.

Definition slice1 (s : string) : string :=
  match s with
  | EmptyString => EmptyString
  | String _ s' => s'
  end.

(** [String.prototype.toUpperCase] on the letters a-z; the other code
    units of the model are left as they are. *)
Definition upperChar (c : ascii) : ascii :=
  let n := codeOf c in
  if (97 <=? n) && (n <=? 122) then ascii_of_N (Z.to_N (n - 32)) else c.

Fixpoint asciiToUpperCase (s : string) : string :=
  match s with
  | EmptyString => EmptyString
  | String c s' => String (upperChar c) (asciiToUpperCase s')
  end.

(** One element of the regular expression of [guessType]. *)
Inductive PatternItem : Type :=
  | PDigit                (* \d *)
  | PChar (c : ascii).    (* a literal character *)

Definition itemTest (p : PatternItem) (c : ascii) : bool :=
  match p with
  | PDigit => isDigit c
  | PChar d => Ascii.eqb c d
  end.

(** [/^.../.test(s)] for a pattern that is a sequence of items. *)
Fixpoint testPrefix (pat : list PatternItem) (s : string) : bool :=
  match pat with
  | [] => true
  | p :: pat' =>
      match s with
      | EmptyString => false
      | String c s' => itemTest p c && testPrefix pat' s'
      end
  end.

(** [\d{4}-\d{2}-\d{2}T\d{2}:\d{2}:\d{2}] *)
Definition isoDateTimePattern : list PatternItem :=
  [ PDigit; PDigit; PDigit; PDigit; PChar "-";
    PDigit; PDigit; PChar "-";
    PDigit; PDigit; PChar "T";
    PDigit; PDigit; PChar ":";
    PDigit; PDigit; PChar ":";
    PDigit; PDigit ]%char.

Definition guessType (value : JsValue) : ColumnType :=
  match value with
  | VBoolean _ => TBoolean
  | VDate _ => TDate
  | VString s => if testPrefix isoDateTimePattern s then TDate else TString
  | VNumber _ => TNumber
  | _ => TString
  end.

Definition guessFilterType (columnType : ColumnType) : FilterType :=
  match columnType with
  | TDate => FDate
  | TNumber => FNumeric
  | TBoolean => FBoolean
  | _ => FText
  end.

Section Derivation.

(** [String.prototype.toUpperCase], a built-in of the host. *)
Variable toUpperCase : string -> string.

Definition capitalizeHeader (header : string) : string :=
  match header with
  | EmptyString => EmptyString
  | _ =>
      let result := insertSpaces header in
      toUpperCase (charAt0 result) ++ slice1 result
  end%string.

End Derivation.

(** The part of the component's state that the column logic touches. *)
Record Component : Type := mkComponent {
  data                     : option (list JsRecord);
  enableColumnFiltering    : option bool;
  derivedColumns           : list ColumnDefinition;
  allMasterColumns         : option (list ColumnDefinition);
  responsiveDisplayColumns : list ColumnDefinition;
  offsetWidth              : Z
}.

Definition setDerived (c : Component) (cols : list ColumnDefinition) : Component :=
  {| data := data c;
     enableColumnFiltering := enableColumnFiltering c;
     derivedColumns := cols;
     allMasterColumns := allMasterColumns c;
     responsiveDisplayColumns := responsiveDisplayColumns c;
     offsetWidth := offsetWidth c |}.

Definition setResponsive (c : Component) (cols : list ColumnDefinition) : Component :=
  {| data := data c;
     enableColumnFiltering := enableColumnFiltering c;
     derivedColumns := derivedColumns c;
     allMasterColumns := allMasterColumns c;
     responsiveDisplayColumns := cols;
     offsetWidth := offsetWidth c |}.

Section Component.

Variable toUpperCase : string -> string.

Definition deriveColumn (this : Component) (firstItem : JsRecord) (key : string)
  : ColumnDefinition :=
  {| field := key;
     header := capitalizeHeader toUpperCase key;
     type := Some (guessType (getProp firstItem key));
     filterable := enableColumnFiltering this;
     filterType := Some (guessFilterType (guessType (getProp firstItem key)));
     mustShow := None;
     minWidth := Some "100px" |}.

(** [deriveColumnsFromData] on data whose rows are objects;
    [deriveColumnsFromData_nullable] below takes rows that may be [null]
    or [undefined], on which [Object.keys] raises. *)
Definition deriveColumnsFromData (this : Component) : Component :=
  match data this with
  | Some (firstItem :: _) =>
      setDerived this (map (deriveColumn this firstItem) (keys firstItem))
  | _ => setDerived this []
  end.

Definition updateResponsiveColumns (this : Component) : Component :=
  match allMasterColumns this with
  | None | Some [] => setResponsive this []
  | Some master =>
      let tableWidth := offsetWidth this in
      let '(currentVisibleColumns, _) := pass2 tableWidth master (pass1 master) in
      setResponsive this (sort (compareColumns master) currentVisibleColumns)
  end.

End Component.

(** [selectVisible(masterColumns, availableWidth)]: the columns that
    [updateResponsiveColumns] leaves in [responsiveDisplayColumns]. *)
Definition selectVisible (masterColumns : list ColumnDefinition) (availableWidth : Z)
  : list ColumnDefinition :=
  responsiveDisplayColumns
    (updateResponsiveColumns
       {| data := None;
          enableColumnFiltering := None;
          derivedColumns := [];
          allMasterColumns := Some masterColumns;
          responsiveDisplayColumns := [];
          offsetWidth := availableWidth |}).

(** [infer(sampleRecord, defaultFilterableFlag)]: the columns that
    [deriveColumnsFromData] leaves in [derivedColumns]; an absent sample
    is an absent or empty [data]. *)
Definition infer (toUpperCase : string -> string)
  (sample : option JsRecord) (enableFilter : bool) : list ColumnDefinition :=
  derivedColumns
    (deriveColumnsFromData toUpperCase
       {| data := match sample with Some r => Some [r] | None => Some [] end;
          enableColumnFiltering := Some enableFilter;
          derivedColumns := [];
          allMasterColumns := None;
          responsiveDisplayColumns := [];
          offsetWidth := 0 |}).

(** A column given by field, [mustShow] and [minWidth] only. *)
Definition col (f : string) (must : option bool) (w : option string) : ColumnDefinition :=
  {| field := f; header := f; type := None; filterable := None;
     filterType := None; mustShow := must; minWidth := w |}.

(** ** Notions used by the properties *)

(** The test of the first pass, [if (col.mustShow)]. *)
Definition isMandatory (c : ColumnDefinition) : bool := truthy (mustShow c).

(** The widths a list of columns asks for, added up. *)
Definition sumWidths (l : list ColumnDefinition) : Z :=
  fold_right (fun c acc => colMinWidth c + acc) 0 l.

(** [a] is found in the master list before [b]. *)
Definition indexBefore (master : list ColumnDefinition) (a b : ColumnDefinition)
  : Prop :=
  masterIndex master (field a) < masterIndex master (field b).

(** [currentVisibleColumns] after the two passes, before the sort. *)
Definition selected (master : list ColumnDefinition) (w : Z) : list ColumnDefinition :=
  fst (pass2 w master (pass1 master)).

(** The data-model precondition on a master column list: [field] values
    are unique. *)
Definition uniqueFields (masterColumns : list ColumnDefinition) : Prop :=
  List.NoDup (map field masterColumns).

(** How many columns of [l] carry the field [f]. *)
Definition countField (f : string) (l : list ColumnDefinition) : nat :=
  length (List.filter (fun c => String.eqb (field c) f) l).

(** Every selected optional column is the only selected column of its
    field. *)
Definition optionalOnce (l : list ColumnDefinition) : Prop :=
  forall c, In c l -> isMandatory c = false -> countField (field c) l = 1%nat.

(** The test of the second pass, [if (!col.mustShow)]. *)
Definition isOptional (c : ColumnDefinition) : bool := negb (isMandatory c).

(** The optional columns ask for non-decreasing widths along the master
    order. *)
Definition optionalWidthsAscend (l : list ColumnDefinition) : Prop :=
  StronglySorted (fun a b => colMinWidth a <= colMinWidth b) (List.filter isOptional l).

(** The first pass as the specification words it: the accumulated width
    grows by [max(minWidth, 0)]. *)
Definition pass1_step_clamped (st : Selection) (col : ColumnDefinition) : Selection :=
  let '(included, usedWidth) := st in
  if truthy (mustShow col)
  then (included ++ [col], usedWidth + Z.max (colMinWidth col) 0)
  else st.

Definition pass1_clamped (masterColumns : list ColumnDefinition) : Selection :=
  fold_left pass1_step_clamped masterColumns ([], 0).

(** The header as the specification words it: a space before every
    internal uppercase letter, then the first character capitalized. *)
Definition insertSpacesInternal (key : string) : string :=
  match key with
  | EmptyString => EmptyString
  | String c rest => String c (insertSpaces rest)
  end.

Definition specHeader (toUpperCase : string -> string) (key : string) : string :=
  (toUpperCase (charAt0 (insertSpacesInternal key))
   ++ slice1 (insertSpacesInternal key))%string.

Definition startsUpper (key : string) : bool :=
  match key with
  | EmptyString => false
  | String c _ => isUpperAZ c
  end.

(** A character 0 to 9. *)
Definition isDecimalDigit (c : ascii) : Prop := 48 <= codeOf c <= 57.

Definition itemMatches (p : PatternItem) (c : ascii) : Prop :=
  match p with
  | PDigit => isDecimalDigit c
  | PChar d => c = d
  end.

(** Four digits, dash, two digits, dash, two digits, literal T, two
    digits, colon, two digits, colon, two digits. *)
Definition dateTimeShape : list PatternItem :=
  (repeat PDigit 4 ++ [PChar "-"] ++ repeat PDigit 2 ++ [PChar "-"]
   ++ repeat PDigit 2 ++ [PChar "T"] ++ repeat PDigit 2 ++ [PChar ":"]
   ++ repeat PDigit 2 ++ [PChar ":"] ++ repeat PDigit 2)%char.

(** [s] starts with characters of the given shape. *)
Definition startsWith (shape : list PatternItem) (s : string) : Prop :=
  exists pre rest,
    s = (string_of_list_ascii pre ++ rest)%string /\ Forall2 itemMatches shape pre.

(** A Date object, or a string that starts like an ISO date and time. *)
Definition isDateLike (v : JsValue) : Prop :=
  (exists t, v = VDate t)
  \/ (exists s, v = VString s /\ startsWith dateTimeShape s).

(** ** Master and displayed columns: [updateMasterColumns], [displayColumns] *)

Definition setMaster (c : Component) (master : option (list ColumnDefinition))
  : Component :=
  {| data := data c;
     enableColumnFiltering := enableColumnFiltering c;
     derivedColumns := derivedColumns c;
     allMasterColumns := master;
     responsiveDisplayColumns := responsiveDisplayColumns c;
     offsetWidth := offsetWidth c |}.

(** [updateMasterColumns]: the explicit [columnDefs] when there are some,
    the derived columns otherwise; the displayed columns are initialized
    when they are empty. *)
Definition updateMasterColumns (columnDefs : option (list ColumnDefinition))
  (this : Component) : Component :=
  let master :=
    match columnDefs with
    | Some (c :: l) => c :: l
    | _ => derivedColumns this
    end in
  let this' := setMaster this (Some master) in
  if (Z.of_nat (length master) >? 0)
     && (Z.of_nat (length (responsiveDisplayColumns this')) =? 0)
  then setResponsive this' master
  else this'.

(** The getter [displayColumns]. *)
Definition displayColumns (this : Component) : list ColumnDefinition :=
  let responsiveCols := responsiveDisplayColumns this in
  let masterCols := match allMasterColumns this with Some m => m | None => [] end in
  if Z.of_nat (length responsiveCols) >? 0 then responsiveCols else masterCols.

Definition getGlobalFilterFields (this : Component) : list string :=
  map field (displayColumns this).

(** The column part of [ngOnInit] and of [ngOnChanges] on a change of
    [data] or [columnDefs]: derive the columns when no definition is
    given, then update the master list and the displayed columns. *)
Definition refreshColumns (toUpperCase : string -> string)
  (columnDefs : option (list ColumnDefinition)) (this : Component) : Component :=
  let this1 :=
    match columnDefs with
    | Some (_ :: _) => this
    | _ => deriveColumnsFromData toUpperCase this
    end in
  updateResponsiveColumns (updateMasterColumns columnDefs this1).

(** ** Selection: [syncSelectionFromInput], [emitSelectionChange] *)

(** The input [selection?: T | T[] | null], and the payload of
    [selectionChange]; a row is a record, not an array. *)
Inductive SelectionValue : Type :=
  | SelUndefined
  | SelNull
  | SelRow (row : JsRecord)
  | SelRows (rows : list JsRecord).

Inductive SelectionMode : Type := SingleMode | MultipleMode.

(** The new value of [selectedRows]. *)
Definition syncSelectionFromInput (selection : SelectionValue) : list JsRecord :=
  match selection with
  | SelUndefined | SelNull => []
  | SelRows rows => rows
  | SelRow row => [row]
  end.

(** The value emitted on [selectionChange]; [selectionMode] is the merged
    configuration's, [None] when it is [null]. *)
Definition emitSelectionChange (selectionMode : option SelectionMode)
  (selectedRows : list JsRecord) : SelectionValue :=
  match selectionMode with
  | Some SingleMode =>
      match selectedRows with
      | row :: _ => SelRow row
      | [] => SelNull
      end
  | _ => SelRows selectedRows
  end.

(** ** Export: [performExport], [onFilter], [selectExportDefinition] *)

(** Truthiness of a value. *)
Definition jsTruthy (v : JsValue) : bool :=
  match v with
  | VUndefined | VNull => false
  | VBoolean b => b
  | VNumber NumNaN => false
  | VNumber (NumInfinity _) => true
  | VNumber (NumFinite mantissa _) => negb (mantissa =? 0)
  | VBigInt z => negb (z =? 0)
  | VString s => negb (String.eqb s "")
  | VSymbol | VDate _ | VObject => true
  end.

(** [v === ""] *)
Definition isEmptyString (v : JsValue) : bool :=
  match v with
  | VString s => String.eqb s ""
  | _ => false
  end.

(** [s.includes(sub)] *)
Fixpoint includes (s sub : string) : bool :=
  String.prefix sub s
  || match s with
     | EmptyString => false
     | String _ s' => includes s' sub
     end.

Module ExportDefinition.
Record t : Type := mk {
  label     : string;
  fileName  : option string;
  filterFn  : option (list JsRecord -> list JsRecord);
  columnsFn : option (list ColumnDefinition -> list ColumnDefinition)
}.
End ExportDefinition.

Inductive DefaultExportType : Type :=
  | ExportAll | ExportSelected | ExportSuccessful | ExportFailed.

Module Exporter.

(** The part of the component's state that exporting touches. *)
Record State : Type := mk {
  data                    : list JsRecord;
  selectedRows            : list JsRecord;
  currentFilteredData     : list JsRecord;
  currentExportDefinition : option ExportDefinition.t;
  defaultExportType       : DefaultExportType
}.

(** The callbacks of the two [filter] calls on [errorMessage]. *)
Definition isSuccessful (item : JsRecord) : bool :=
  let errorMessage := getProp item "errorMessage" in
  negb (jsTruthy errorMessage) || isEmptyString errorMessage.

Definition isFailed (item : JsRecord) : bool :=
  let errorMessage := getProp item "errorMessage" in
  jsTruthy
    (if jsTruthy errorMessage
     then VBoolean (negb (isEmptyString errorMessage))
     else errorMessage).

(** [fileName?.includes(word)] *)
Definition fileNameIncludes (def : ExportDefinition.t) (word : string) : bool :=
  match ExportDefinition.fileName def with
  | Some name => includes name word
  | None => false
  end.

(** [performExport]: the rows emitted on [exportData]. *)
Definition performExport (displayColumns : list ColumnDefinition) (this : State)
  : list JsRecord :=
  match currentExportDefinition this with
  | Some def =>
      let dataToExport :=
        if String.eqb (ExportDefinition.label def) "common.actions.exportSelection"
           || fileNameIncludes def "selected"
        then selectedRows this
        else if String.eqb (ExportDefinition.label def) "common.actions.exportFiltered"
                || fileNameIncludes def "filtered"
        then if Z.of_nat (length (currentFilteredData this)) >? 0
             then currentFilteredData this
             else data this
        else match ExportDefinition.filterFn def with
             | Some filterFn => filterFn (data this)
             | None => data this
             end in
      let columnsToExport :=
        match ExportDefinition.columnsFn def with
        | Some columnsFn => columnsFn displayColumns
        | None => displayColumns
        end in
      dataToExport
  | None =>
      match defaultExportType this with
      | ExportSelected => selectedRows this
      | ExportSuccessful => List.filter isSuccessful (data this)
      | ExportFailed => List.filter isFailed (data this)
      | ExportAll => data this
      end
  end.

Definition setFiltered (this : State) (rows : list JsRecord) : State :=
  {| data := data this;
     selectedRows := selectedRows this;
     currentFilteredData := rows;
     currentExportDefinition := currentExportDefinition this;
     defaultExportType := defaultExportType this |}.

(** [onFilter]: the rows stored in [currentFilteredData] and emitted on
    [filteredData] are [event.filteredValue || this.data]; an array, empty
    or not, is truthy. *)
Definition onFilter (filteredValue : option (list JsRecord)) (this : State) : State :=
  let filtered := match filteredValue with Some v => v | None => data this end in
  setFiltered this filtered.

(** [reset], as far as exporting is concerned. *)
Definition reset (this : State) : State := setFiltered this (data this).

Definition selectExportDefinition (definition : ExportDefinition.t) (this : State)
  : State :=
  {| data := data this;
     selectedRows := selectedRows this;
     currentFilteredData := currentFilteredData this;
     currentExportDefinition := Some definition;
     defaultExportType := defaultExportType this |}.

Definition selectDefaultExport (type : DefaultExportType) (this : State) : State :=
  {| data := data this;
     selectedRows := selectedRows this;
     currentFilteredData := currentFilteredData this;
     currentExportDefinition := None;
     defaultExportType := type |}.

End Exporter.

(** ** Action buttons: [buildActionsPanelButtons], [isToolbarActionDisabled] *)

Inductive Severity : Type :=
  | Primary | Secondary | Success | Info | Help | Danger | Contrast.

(** [disabled?: boolean | ((selectedRows: T[]) => boolean)] *)
Inductive DisabledSetting : Type :=
  | DisabledFlag (b : bool)
  | DisabledWhen (f : list JsRecord -> bool).

Module ActionButtonDefinition.
Record t : Type := mk {
  label                   : string;
  icon                    : string;
  tooltip                 : option string;
  disabled                : option DisabledSetting;
  requiresSelection       : option bool;
  requiresSingleSelection : option bool;
  severity                : option Severity
}.
End ActionButtonDefinition.

(** A button of the actions panel; its [command] closure is left out. *)
Module ActionButton.
Record t : Type := mk {
  label    : string;
  icon     : string;
  severity : option Severity;
  disabled : bool;
  tooltip  : option string
}.
End ActionButton.

Definition isToolbarActionDisabled (selectedRows : list JsRecord)
  (action : ActionButtonDefinition.t) : bool :=
  match ActionButtonDefinition.disabled action with
  | Some (DisabledWhen f) => f selectedRows
  | Some (DisabledFlag true) => true
  | _ => false
  end.

(** The callback of the [map] of [buildActionsPanelButtons]. *)
Definition buildActionsPanelButton (selectedRows : list JsRecord)
  (actionDef : ActionButtonDefinition.t) : ActionButton.t :=
  let disabled :=
    match ActionButtonDefinition.disabled actionDef with
    | Some (DisabledWhen f) => f selectedRows
    | Some (DisabledFlag b) => b
    | None => false
    end in
  let disabled :=
    if truthy (ActionButtonDefinition.requiresSelection actionDef)
       && (Z.of_nat (length selectedRows) =? 0)
    then true else disabled in
  let disabled :=
    if truthy (ActionButtonDefinition.requiresSingleSelection actionDef)
       && negb (Z.of_nat (length selectedRows) =? 1)
    then true else disabled in
  {| ActionButton.label := ActionButtonDefinition.label actionDef;
     ActionButton.icon := ActionButtonDefinition.icon actionDef;
     ActionButton.severity := ActionButtonDefinition.severity actionDef;
     ActionButton.disabled := disabled;
     ActionButton.tooltip := ActionButtonDefinition.tooltip actionDef |}.

(** [buildActionsPanelButtons]: the new value of [actionsPanelButtons];
    [actionButtons] is the merged configuration's. *)
Definition buildActionsPanelButtons
  (actionButtons : option (list ActionButtonDefinition.t))
  (selectedRows : list JsRecord) : list ActionButton.t :=
  match actionButtons with
  | None | Some [] => []
  | Some defs => map (buildActionsPanelButton selectedRows) defs
  end.

(** ** Cells: [getCellData] *)

(** [s.split(sep)] for a separator of one character. *)
Fixpoint split (sep : ascii) (s : string) : list string :=
  match s with
  | EmptyString => [EmptyString]
  | String c s' =>
      if Ascii.eqb c sep then EmptyString :: split sep s'
      else match split sep s' with
           | part :: parts => String c part :: parts
           | [] => [String c EmptyString]
           end
  end.

(** [x || fallback] on an optional string. *)
Definition orString (x : option string) (fallback : string) : string :=
  match x with
  | Some EmptyString | None => fallback
  | Some s => s
  end.

(** The text of a boolean cell:
    [value ? parts?.[0] || "Ja" : parts?.[1] || "Nein"]. *)
Definition booleanText (format : option string) (value : JsValue) : string :=
  let parts := option_map (split "/") format in
  if jsTruthy value
  then orString (match parts with Some p => nth_error p 0 | None => None end) "Ja"
  else orString (match parts with Some p => nth_error p 1 | None => None end) "Nein".

Module Cell.
Section Cell.

(** What a transformer returns, and a [Date]. *)
Context {R D : Type}.

(** [new Date(value)], when its time is not [NaN]. *)
Variable parseDate : string -> option D.

(** The properties of a column that [getCellData] reads; the callbacks
    are closed over the column they belong to. *)
Record Column : Type := mk {
  field        : string;
  type         : option ColumnType;
  format       : option string;
  transformKey : option string;
  transform    : option (JsRecord -> R);
  customRender : option (JsRecord -> string)
}.

Inductive CellData : Type :=
  | Rendered (r : R)
  | Text (s : string)
  | DateValue (d : D)
  | Raw (v : JsValue).

Definition isType (col : Column) (t : ColumnType) : bool :=
  match type col, t with
  | Some TString, TString | Some TDate, TDate | Some TNumber, TNumber
  | Some TBoolean, TBoolean | Some TCustom, TCustom | Some TActions, TActions => true
  | _, _ => false
  end.

(** The cell after the transformers, [transform] and [customRender]. *)
Definition getPlainCellData (rowData : JsRecord) (col : Column) : CellData :=
  let value := getProp rowData (field col) in
  let asDate :=
    match value with
    | VString s =>
        if isType col TDate && jsTruthy value then parseDate s else None
    | _ => None
    end in
  match asDate with
  | Some dateValue => DateValue dateValue
  | None =>
      if isType col TBoolean then Text (booleanText (format col) value)
      else Raw value
  end.

Definition getCellData (transformers : option (string -> option (JsRecord -> R)))
  (rowData : JsRecord) (col : Column) : CellData :=
  let transformer :=
    match transformKey col, transformers with
    | Some (String c k), Some table => table (String c k)
    | _, _ => None
    end in
  match transformer with
  | Some f => Rendered (f rowData)
  | None =>
      match transform col with
      | Some f => Rendered (f rowData)
      | None =>
          match customRender col with
          | Some render =>
              if isType col TCustom then Text (render rowData)
              else getPlainCellData rowData col
          | None => getPlainCellData rowData col
          end
      end
  end.

End Cell.
End Cell.

(** ** Rows and column entries that may be [null] *)

(** A row of [data] as [Object.keys] and property access see it: [null],
    [undefined], or any other value, given by the own enumerable string
    keys that [Object.keys] lists (none for a number or a boolean). *)
Inductive JsRow : Type :=
  | RowNull
  | RowUndefined
  | RowObject (r : JsRecord).

(** What a call does: it returns, or it raises a [TypeError]. *)
Inductive Outcome (A : Type) : Type :=
  | Returns (a : A)
  | RaisesTypeError.

Arguments Returns {A} a.
Arguments RaisesTypeError {A}.

(** [deriveColumnsFromData] when [this.data] is [rows], whose rows need
    not be objects: [Object.keys(firstItem)] raises a [TypeError] on a
    first row that is [null] or [undefined]. *)
Definition deriveColumnsFromData_nullable (toUpperCase : string -> string)
  (this : Component) (rows : option (list JsRow)) : Outcome Component :=
  match rows with
  | Some (firstItem :: _) =>
      match firstItem with
      | RowObject r =>
          Returns (setDerived this (map (deriveColumn toUpperCase this r) (keys r)))
      | RowNull | RowUndefined => RaisesTypeError
      end
  | _ => Returns (setDerived this [])
  end.

(** The bodies of the two [forEach] on an entry of the master list that
    may be [null] or [undefined] ([None]): reading [col.mustShow] raises
    a [TypeError] on such an entry. *)
Definition pass1_entry (st : Outcome Selection) (entry : option ColumnDefinition)
  : Outcome Selection :=
  match st, entry with
  | Returns s, Some col => Returns (pass1_step s col)
  | _, _ => RaisesTypeError
  end.

Definition pass2_entry (tableWidth : Z) (st : Outcome Selection)
  (entry : option ColumnDefinition) : Outcome Selection :=
  match st, entry with
  | Returns s, Some col => Returns (pass2_step tableWidth s col)
  | _, _ => RaisesTypeError
  end.

(** The entries that are columns. *)
Definition presentEntries (entries : list (option ColumnDefinition))
  : list ColumnDefinition :=
  flat_map (fun entry => match entry with Some c => [c] | None => [] end) entries.

(** [updateResponsiveColumns] when [this.allMasterColumns] is [entries].
    The sort is reached only when both passes have read every entry, and
    then every entry is a column. *)
Definition updateResponsiveColumns_nullable (this : Component)
  (entries : option (list (option ColumnDefinition))) : Outcome Component :=
  match entries with
  | None | Some [] => Returns (setResponsive this [])
  | Some master =>
      let tableWidth := offsetWidth this in
      match fold_left (pass2_entry tableWidth) master
              (fold_left pass1_entry master (Returns ([], 0))) with
      | Returns (currentVisibleColumns, _) =>
          Returns (setResponsive this
                     (sort (compareColumns (presentEntries master))
                        currentVisibleColumns))
      | RaisesTypeError => RaisesTypeError
      end
  end.

(** * Properties *)

Example parseInt_px : parseInt "100px" = Some 100.
Proof. reflexivity. Qed.

Example parseInt_neg : parseInt "  -50px" = Some (-50).
Proof. reflexivity. Qed.

Example parseInt_nan : parseInt "auto" = None.
Proof. reflexivity. Qed.

(** The end-to-end scenario of the usage guide. *)
Example selectVisible_scenario :
  map field
    (selectVisible
       [ col "id" (Some true) (Some "60px"); col "name" (Some true) (Some "150px");
         col "email" None (Some "200px"); col "phone" None (Some "150px") ] 350)
  = ["id"; "name"].
Proof. reflexivity. Qed.

(** ** The two passes *)

Lemma sumWidths_app l1 l2 : sumWidths (l1 ++ l2) = sumWidths l1 + sumWidths l2.
Proof. unfold sumWidths. induction l1 as [|c l1 IH]; simpl; lia. Qed.

Lemma selectVisible_eq master w :
  selectVisible master w
  = sort (compareColumns master) (fst (pass2 w master (pass1 master))).
Proof.
  unfold selectVisible, updateResponsiveColumns; simpl.
  destruct master as [|c master]; [reflexivity|].
  destruct (pass2 w (c :: master) (pass1 (c :: master))); reflexivity.
Qed.

Lemma sumWidths_cons c l : sumWidths (c :: l) = colMinWidth c + sumWidths l.
Proof. reflexivity. Qed.

Lemma pass1_step_eq vis acc c :
  pass1_step (vis, acc) c
  = if isMandatory c then (vis ++ [c], acc + colMinWidth c) else (vis, acc).
Proof. reflexivity. Qed.

Lemma pass1_fold l vis acc :
  fold_left pass1_step l (vis, acc)
  = (vis ++ List.filter isMandatory l, acc + sumWidths (List.filter isMandatory l)).
Proof.
  revert vis acc; induction l as [|c l IH]; intros vis acc;
    cbn [fold_left List.filter].
  - rewrite app_nil_r. f_equal. unfold sumWidths; simpl; lia.
  - rewrite pass1_step_eq. destruct (isMandatory c).
    + rewrite IH, <- app_assoc, sumWidths_cons. simpl app. f_equal; lia.
    + apply IH.
Qed.

Lemma pass1_eq master :
  pass1 master
  = (List.filter isMandatory master, sumWidths (List.filter isMandatory master)).
Proof. unfold pass1. rewrite pass1_fold. reflexivity. Qed.

Lemma findByField_None vis f :
  findByField vis f = None <-> Forall (fun c => field c <> f) vis.
Proof.
  unfold findByField. induction vis as [|c vis IH]; simpl.
  - split; auto.
  - destruct (String.eqb_spec (field c) f) as [E|E].
    + split; [discriminate|]. intros H. inversion H; contradiction.
    + rewrite IH. split; [auto|]. intros H; inversion H; assumption.
Qed.

Lemma findByField_Some vis f c :
  findByField vis f = Some c -> In c vis /\ field c = f.
Proof.
  unfold findByField. intros H. apply find_some in H as [H1 H2].
  split; [assumption|]. apply String.eqb_eq; assumption.
Qed.

(** The three outcomes of one step of the second pass. *)
Lemma pass2_step_mandatory w st c :
  isMandatory c = true -> pass2_step w st c = st.
Proof. unfold isMandatory, pass2_step. destruct st. intros ->. reflexivity. Qed.

Lemma pass2_step_present w vis acc c :
  findByField vis (field c) <> None -> pass2_step w (vis, acc) c = (vis, acc).
Proof.
  unfold pass2_step. intros H. destruct (negb _); [|reflexivity].
  destruct (findByField vis (field c)); [reflexivity|contradiction].
Qed.

Lemma pass2_step_absent w vis acc c :
  isMandatory c = false -> findByField vis (field c) = None ->
  pass2_step w (vis, acc) c
  = if w >? acc + colMinWidth c then (vis ++ [c], acc + colMinWidth c) else (vis, acc).
Proof. unfold isMandatory, pass2_step. intros -> ->. reflexivity. Qed.

(** A step either leaves the selection alone or appends its column, which
    is then optional and new by field. *)
Lemma pass2_step_cases w vis acc c :
  pass2_step w (vis, acc) c = (vis, acc)
  \/ (pass2_step w (vis, acc) c = (vis ++ [c], acc + colMinWidth c)
      /\ isMandatory c = false
      /\ findByField vis (field c) = None
      /\ w > acc + colMinWidth c).
Proof.
  destruct (isMandatory c) eqn:Hm.
  - left. apply pass2_step_mandatory; assumption.
  - destruct (findByField vis (field c)) eqn:Hf.
    + left. apply pass2_step_present. congruence.
    + rewrite pass2_step_absent by assumption.
      destruct (Z.gtb_spec w (acc + colMinWidth c)); [right|left]; auto.
      repeat split; auto; lia.
Qed.

Lemma pass2_cons w c l st :
  pass2 w (c :: l) st = pass2 w l (pass2_step w st c).
Proof. reflexivity. Qed.

Lemma pass2_app w l1 l2 st :
  pass2 w (l1 ++ l2) st = pass2 w l2 (pass2 w l1 st).
Proof. unfold pass2. apply fold_left_app. Qed.

(** The second pass only appends, and only optional columns of the list
    it walks. *)
Lemma pass2_extends w l vis acc :
  exists extra,
    fst (pass2 w l (vis, acc)) = vis ++ extra
    /\ Forall (fun c => In c l /\ isMandatory c = false) extra.
Proof.
  revert vis acc; induction l as [|c l IH]; intros vis acc.
  - exists []. simpl. rewrite app_nil_r. auto.
  - rewrite pass2_cons.
    destruct (pass2_step_cases w vis acc c) as [-> | (-> & Hm & _ & _)].
    + destruct (IH vis acc) as (extra & E & F). exists extra. split; [exact E|].
      eapply List.Forall_impl; [|exact F]. simpl. intros a [? ?]; auto.
    + destruct (IH (vis ++ [c]) (acc + colMinWidth c)) as (extra & E & F).
      exists (c :: extra). rewrite E, <- app_assoc. split; [reflexivity|].
      constructor; [simpl; auto|].
      eapply List.Forall_impl; [|exact F]. simpl. intros a [? ?]; auto.
Qed.

(** When no remaining optional column fits, the second pass changes
    nothing. *)
Lemma pass2_stuck w l vis acc :
  (forall c, In c l -> isMandatory c = false -> w <= acc + colMinWidth c) ->
  pass2 w l (vis, acc) = (vis, acc).
Proof.
  induction l as [|c l IH]; intros H; [reflexivity|].
  rewrite pass2_cons.
  destruct (pass2_step_cases w vis acc c) as [-> | (_ & Hm & _ & Hw)].
  - apply IH. intros a Ha. apply H. right; assumption.
  - specialize (H c (or_introl eq_refl) Hm). lia.
Qed.

(** ** The final sort *)

Lemma sortInsert_perm {A} (cmp : A -> A -> Z) x l :
  Permutation (x :: l) (sortInsert cmp x l).
Proof.
  induction l as [|y l IH]; simpl; [reflexivity|].
  destruct (cmp x y <=? 0); [reflexivity|].
  rewrite perm_swap. apply perm_skip, IH.
Qed.

Lemma sort_perm {A} (cmp : A -> A -> Z) l : Permutation l (sort cmp l).
Proof.
  induction l as [|x l IH]; simpl; [reflexivity|].
  rewrite <- sortInsert_perm. apply perm_skip, IH.
Qed.

Lemma sort_In {A} (cmp : A -> A -> Z) l x : In x (sort cmp l) <-> In x l.
Proof.
  split; apply Permutation_in; [symmetry|]; apply sort_perm.
Qed.

Section SortByKey.

Context {A : Type} (key : A -> Z) (cmp : A -> A -> Z).
Hypothesis cmp_key : forall a b, cmp a b = key a - key b.

Lemma sortInsert_sorted x l :
  StronglySorted (fun a b => key a <= key b) l ->
  StronglySorted (fun a b => key a <= key b) (sortInsert cmp x l).
Proof.
  induction 1 as [|y l Hl IH Hy]; simpl.
  - repeat constructor.
  - rewrite cmp_key. destruct (Z.leb_spec (key x - key y) 0) as [Hle|Hgt].
    + constructor; [constructor; assumption|].
      constructor; [lia|].
      eapply List.Forall_impl; [|exact Hy]. simpl; intros; lia.
    + constructor; [exact IH|].
      eapply Permutation_Forall; [apply sortInsert_perm|].
      constructor; [lia|exact Hy].
Qed.

Lemma sort_sorted l : StronglySorted (fun a b => key a <= key b) (sort cmp l).
Proof.
  induction l as [|x l IH]; simpl; [constructor|].
  apply sortInsert_sorted, IH.
Qed.

End SortByKey.

(** ** Positions in the master list *)

Lemma masterIndex_cons c0 rest f :
  masterIndex (c0 :: rest) f
  = if String.eqb (field c0) f then 0
    else if masterIndex rest f <? 0 then -1 else 1 + masterIndex rest f.
Proof. reflexivity. Qed.

Lemma masterIndex_range master f : -1 <= masterIndex master f.
Proof.
  induction master as [|c0 rest IH]; [simpl; unfold masterIndex; simpl; lia|].
  rewrite masterIndex_cons. destruct (String.eqb _ _); [lia|].
  destruct (Z.ltb_spec (masterIndex rest f) 0); lia.
Qed.

Lemma masterIndex_found master c :
  In c master -> 0 <= masterIndex master (field c).
Proof.
  induction master as [|c0 rest IH]; intros Hin; [destruct Hin|].
  rewrite masterIndex_cons.
  destruct (String.eqb_spec (field c0) (field c)) as [E|E]; [lia|].
  destruct Hin as [->|Hin]; [congruence|].
  specialize (IH Hin). destruct (Z.ltb_spec (masterIndex rest (field c)) 0); lia.
Qed.

(** Columns found at the same position carry the same field. *)
Lemma masterIndex_inj master f g :
  0 <= masterIndex master f -> masterIndex master f = masterIndex master g -> f = g.
Proof.
  induction master as [|c0 rest IH].
  - unfold masterIndex; simpl; lia.
  - rewrite !masterIndex_cons.
    destruct (String.eqb_spec (field c0) f) as [E1|E1];
      destruct (String.eqb_spec (field c0) g) as [E2|E2];
      destruct (Z.ltb_spec (masterIndex rest f) 0);
      destruct (Z.ltb_spec (masterIndex rest g) 0);
      intros Hf Heq; try congruence; try lia.
    apply IH; lia.
Qed.

(** With unique fields, a column of the tail of the master list is found
    one position further than in the tail. *)
Lemma masterIndex_tail c0 rest c :
  List.NoDup (map field (c0 :: rest)) -> In c rest ->
  masterIndex (c0 :: rest) (field c) = 1 + masterIndex rest (field c).
Proof.
  intros Hnd Hin. rewrite masterIndex_cons.
  pose proof (masterIndex_found rest c Hin) as Hpos.
  simpl in Hnd. apply List.NoDup_cons_iff in Hnd as [Hnotin _].
  destruct (String.eqb_spec (field c0) (field c)) as [E|E].
  - exfalso. apply Hnotin. rewrite E. apply in_map; assumption.
  - destruct (Z.ltb_spec (masterIndex rest (field c)) 0); lia.
Qed.

Lemma StronglySorted_In_impl {A} (R R' : A -> A -> Prop) l :
  (forall a b, In a l -> In b l -> R a b -> R' a b) ->
  StronglySorted R l -> StronglySorted R' l.
Proof.
  intros Himpl Hs. induction Hs as [|a l Hs IH Hall]; constructor.
  - apply IH. intros x y Hx Hy. apply Himpl; right; assumption.
  - rewrite List.Forall_forall in *. intros b Hb.
    apply Himpl; [left; reflexivity|right; assumption|]. apply Hall, Hb.
Qed.

(** A list of master columns whose positions strictly increase is a
    subsequence of the master list. *)
Lemma sublist_of_index_sorted master :
  List.NoDup (map field master) ->
  forall l,
    Forall (fun c => In c master) l ->
    StronglySorted (indexBefore master) l ->
    sublist l master.
Proof.
  induction master as [|c0 rest IH]; intros Hnd l Hin Hs.
  - destruct l as [|x l]; [constructor|].
    inversion Hin as [|? ? Hx _]; destruct Hx.
  - destruct l as [|x l]; [apply sublist_nil_l|].
    assert (Hnd' : List.NoDup (map field rest)).
    { simpl in Hnd. apply List.NoDup_cons_iff in Hnd as [_ ?]; assumption. }
    assert (Hfirst : masterIndex (c0 :: rest) (field c0) = 0).
    { rewrite masterIndex_cons, String.eqb_refl. reflexivity. }
    (* columns of [rest] keep their order when [c0] is dropped *)
    assert (Hshift : forall k, Forall (fun c => In c rest) k ->
              StronglySorted (indexBefore (c0 :: rest)) k ->
              StronglySorted (indexBefore rest) k).
    { intros k Hk. apply StronglySorted_In_impl. intros a b Ha Hb.
      rewrite List.Forall_forall in Hk. unfold indexBefore.
      rewrite !(masterIndex_tail c0 rest) by auto. lia. }
    (* a column placed after a column of the master list is in [rest] *)
    assert (Hafter : forall a b, In a (c0 :: rest) -> In b (c0 :: rest) ->
              indexBefore (c0 :: rest) a b -> In b rest).
    { intros a b Ha [<-|Hb] Hab; [|assumption]. exfalso.
      unfold indexBefore in Hab. rewrite Hfirst in Hab.
      pose proof (masterIndex_found _ _ Ha). lia. }
    inversion Hin as [|? ? Hx Hl]; subst.
    inversion Hs as [|? ? Hs' Hall]; subst.
    assert (Hl' : Forall (fun c => In c rest) l).
    { rewrite List.Forall_forall in *. intros b Hb.
      apply (Hafter x b); auto. }
    destruct Hx as [<-|Hx].
    + apply sublist_skip, IH; auto.
    + apply sublist_cons, IH; auto.
Qed.

(** ** Invariants of the selection *)

Lemma filter_fields_NoDup (p : ColumnDefinition -> bool) l :
  List.NoDup (map field l) -> List.NoDup (map field (List.filter p l)).
Proof.
  induction l as [|c l IH]; simpl; intros Hnd; [constructor|].
  apply List.NoDup_cons_iff in Hnd as [Hnotin Hnd].
  destruct (p c); simpl; [|auto].
  constructor; [|auto]. intros Hin. apply Hnotin.
  apply in_map_iff in Hin as (a & <- & Ha). apply in_map.
  apply filter_In in Ha as [? _]; assumption.
Qed.

(** The second pass never selects a field twice. *)
Lemma pass2_fields_NoDup w l vis acc :
  List.NoDup (map field vis) -> List.NoDup (map field (fst (pass2 w l (vis, acc)))).
Proof.
  revert vis acc; induction l as [|c l IH]; intros vis acc Hnd; [assumption|].
  rewrite pass2_cons.
  destruct (pass2_step_cases w vis acc c) as [-> | (-> & _ & Hf & _)]; [auto|].
  apply IH. rewrite map_app. simpl.
  apply findByField_None in Hf. rewrite List.Forall_forall in Hf.
  apply List.NoDup_app; [assumption|repeat constructor; simpl; tauto|].
  intros f Hin [<-|[]]. apply in_map_iff in Hin as (a & Ha & Hin).
  exact (Hf a Hin Ha).
Qed.

Lemma selected_eq master w :
  exists extra,
    selected master w = List.filter isMandatory master ++ extra
    /\ Forall (fun c => In c master /\ isMandatory c = false) extra.
Proof.
  unfold selected. rewrite pass1_eq. apply pass2_extends.
Qed.

Lemma selected_In master w c : In c (selected master w) -> In c master.
Proof.
  destruct (selected_eq master w) as (extra & -> & F). intros Hin.
  apply in_app_or in Hin as [Hin|Hin].
  - apply filter_In in Hin as [? _]; assumption.
  - rewrite List.Forall_forall in F. apply F; assumption.
Qed.

Lemma selected_fields_NoDup master w :
  List.NoDup (map field master) -> List.NoDup (map field (selected master w)).
Proof.
  intros Hnd. unfold selected. rewrite pass1_eq.
  apply pass2_fields_NoDup, filter_fields_NoDup, Hnd.
Qed.

Lemma selectVisible_perm master w :
  Permutation (selected master w) (selectVisible master w).
Proof. rewrite selectVisible_eq. apply sort_perm. Qed.

Lemma selectVisible_In master w c :
  In c (selectVisible master w) <-> In c (selected master w).
Proof. rewrite selectVisible_eq. apply sort_In. Qed.

(** The displayed columns stand in strictly increasing master position. *)
Lemma selectVisible_sorted master w :
  List.NoDup (map field master) ->
  StronglySorted (indexBefore master) (selectVisible master w).
Proof.
  intros Hnd.
  assert (Hle : StronglySorted
                  (fun a b => masterIndex master (field a) <= masterIndex master (field b))
                  (selectVisible master w)).
  { rewrite selectVisible_eq.
    apply (sort_sorted (fun c => masterIndex master (field c))). reflexivity. }
  assert (Hnd' : List.NoDup (map field (selectVisible master w))).
  { eapply Permutation_NoDup; [apply Permutation_map, selectVisible_perm|].
    apply selected_fields_NoDup, Hnd. }
  assert (Hin : Forall (fun c => In c master) (selectVisible master w)).
  { rewrite List.Forall_forall. intros c Hc.
    apply selectVisible_In, selected_In in Hc; assumption. }
  induction Hle as [|a l Hs IH Hall]; constructor.
  - simpl in Hnd'. apply List.NoDup_cons_iff in Hnd' as [_ ?].
    inversion Hin; subst. apply IH; assumption.
  - simpl in Hnd'. apply List.NoDup_cons_iff in Hnd' as [Hnotin _].
    inversion Hin as [|? ? Ha Hl]; subst.
    rewrite List.Forall_forall in *. intros b Hb. unfold indexBefore.
    specialize (Hall b Hb).
    destruct (Z.eq_dec (masterIndex master (field a)) (masterIndex master (field b)))
      as [E|E]; [|lia].
    exfalso. apply Hnotin.
    apply masterIndex_inj in E; [|apply masterIndex_found, Ha].
    rewrite E. apply in_map, Hb.
Qed.

Lemma selectVisible_sublist master w :
  List.NoDup (map field master) -> sublist (selectVisible master w) master.
Proof.
  intros Hnd. apply sublist_of_index_sorted; [exact Hnd| |].
  - rewrite List.Forall_forall. intros c Hc.
    apply selectVisible_In, selected_In in Hc; assumption.
  - apply selectVisible_sorted, Hnd.
Qed.

(** C4. For a master column list with unique field values and any
    available width, the output of [selectVisible] is a subsequence of the
    master list: the displayed columns are the selected ones in master
    order. *)
Theorem selectVisible_subsequence (masterColumns : list ColumnDefinition) (w : Z) :
  uniqueFields masterColumns ->
  sublist (selectVisible masterColumns w) masterColumns.
Proof. apply selectVisible_sublist. Qed.

Lemma selectVisible_subsequence_witness :
  let cols := [ col "id" (Some true) (Some "60px"); col "name" (Some true) (Some "150px");
                col "email" None (Some "200px"); col "phone" None (Some "150px") ] in
  uniqueFields cols /\ sublist (selectVisible cols 600) cols.
Proof.
  intros cols.
  assert (H : uniqueFields cols).
  { unfold uniqueFields; simpl. repeat constructor; simpl; intuition discriminate. }
  split; [exact H|]. apply (selectVisible_subsequence cols 600 H).
Defined.

Lemma isMandatory_true c : isMandatory c = true <-> mustShow c = Some true.
Proof.
  unfold isMandatory, truthy. destruct (mustShow c) as [[|]|]; split; congruence.
Qed.

Lemma isMandatory_false c : isMandatory c = false <-> mustShow c <> Some true.
Proof.
  unfold isMandatory, truthy. destruct (mustShow c) as [[|]|]; split; congruence.
Qed.

Lemma filter_all {A} (p : A -> bool) l :
  Forall (fun x => p x = true) l -> List.filter p l = l.
Proof.
  induction 1 as [|x l Hx _ IH]; simpl; [reflexivity|]. rewrite Hx, IH. reflexivity.
Qed.

Lemma filter_none {A} (p : A -> bool) l :
  Forall (fun x => p x = false) l -> List.filter p l = [].
Proof.
  induction 1 as [|x l Hx _ IH]; simpl; [reflexivity|]. rewrite Hx, IH. reflexivity.
Qed.

Lemma sublist_same_length {A} (l1 l2 : list A) :
  sublist l1 l2 -> (length l2 <= length l1)%nat -> l1 = l2.
Proof.
  induction 1 as [|x l1 l2 Hs IH|x l1 l2 Hs IH]; simpl; intros Hlen.
  - reflexivity.
  - f_equal. apply IH. lia.
  - apply sublist_length in Hs. lia.
Qed.

(** When every column is mandatory the two passes select the master list
    itself. *)
Lemma selected_all_mandatory master w :
  Forall (fun c => mustShow c = Some true) master -> selected master w = master.
Proof.
  intros Hall. destruct (selected_eq master w) as (extra & -> & F).
  rewrite filter_all
    by (eapply List.Forall_impl; [|exact Hall]; intros c; apply isMandatory_true).
  destruct extra as [|c extra]; [apply app_nil_r|].
  inversion F as [|? ? [Hin Hm] _]; subst.
  rewrite List.Forall_forall in Hall. apply Hall, isMandatory_true in Hin. congruence.
Qed.

(** The claim of C3 fails on the code when a field is repeated: the sort
    orders by the first position of each field, so the columns of a
    repeated field are brought together. *)
Lemma selectVisible_all_mandatory_repeated_field :
  let cols := [ col "f" (Some true) (Some "1px"); col "g" (Some true) None;
                col "f" (Some true) (Some "2px") ] in
  Forall (fun c => mustShow c = Some true) cols
  /\ selectVisible cols 0
     = [ col "f" (Some true) (Some "1px"); col "f" (Some true) (Some "2px");
         col "g" (Some true) None ]
  /\ selectVisible cols 0 <> cols.
Proof.
  intros cols. split; [repeat constructor|]. split; [reflexivity|].
  vm_compute. discriminate.
Qed.

(** C3, amended. For a master column list with unique field values in
    which every column has [mustShow = true], and for every available
    width, zero and negative widths included, [selectVisible] returns the
    master list itself, element for element in its order. *)
Theorem selectVisible_all_mandatory (masterColumns : list ColumnDefinition) (w : Z) :
  uniqueFields masterColumns ->
  Forall (fun c => mustShow c = Some true) masterColumns ->
  selectVisible masterColumns w = masterColumns.
Proof.
  intros Hnd Hall. apply sublist_same_length.
  - apply selectVisible_sublist, Hnd.
  - rewrite <- (Permutation_length (selectVisible_perm masterColumns w)).
    rewrite selected_all_mandatory by assumption. reflexivity.
Qed.

Lemma selectVisible_all_mandatory_witness :
  let cols := [ col "id" (Some true) (Some "60px"); col "name" (Some true) None;
                col "total" (Some true) (Some "wide") ] in
  uniqueFields cols
  /\ Forall (fun c => mustShow c = Some true) cols
  /\ selectVisible cols (-5) = cols.
Proof.
  intros cols.
  assert (H1 : uniqueFields cols).
  { unfold uniqueFields; simpl. repeat constructor; simpl; intuition discriminate. }
  assert (H2 : Forall (fun c => mustShow c = Some true) cols).
  { repeat constructor. }
  split; [exact H1|]. split; [exact H2|].
  apply (selectVisible_all_mandatory cols (-5) H1 H2).
Defined.

(** C9. For a master column list with no [mustShow] column and
    non-negative effective minimum widths, [selectVisible] returns the
    empty sequence whenever the available width is at most 0. *)
Theorem selectVisible_no_room (masterColumns : list ColumnDefinition) (w : Z) :
  Forall (fun c => mustShow c <> Some true) masterColumns ->
  Forall (fun c => 0 <= colMinWidth c) masterColumns ->
  w <= 0 ->
  selectVisible masterColumns w = [].
Proof.
  intros Hopt Hpos Hw. rewrite selectVisible_eq, pass1_eq.
  rewrite filter_none
    by (eapply List.Forall_impl; [|exact Hopt]; intros c; apply isMandatory_false).
  rewrite pass2_stuck; [reflexivity|].
  intros c Hin _. rewrite List.Forall_forall in Hpos.
  specialize (Hpos c Hin). unfold sumWidths; simpl. lia.
Qed.

Lemma selectVisible_no_room_witness :
  let cols := [ col "email" None (Some "200px"); col "phone" (Some false) None;
                col "note" None (Some "0") ] in
  Forall (fun c => mustShow c <> Some true) cols
  /\ Forall (fun c => 0 <= colMinWidth c) cols
  /\ 0 <= 0
  /\ selectVisible cols 0 = [].
Proof.
  intros cols.
  assert (H1 : Forall (fun c => mustShow c <> Some true) cols).
  { repeat constructor; simpl; discriminate. }
  assert (H2 : Forall (fun c => 0 <= colMinWidth c) cols).
  { repeat constructor; vm_compute; discriminate. }
  assert (H3 : 0 <= 0) by lia.
  split; [exact H1|]. split; [exact H2|]. split; [exact H3|].
  apply (selectVisible_no_room cols 0 H1 H2 H3).
Defined.

(** ** Duplicate fields *)

(** Outside the data model, when a field is repeated, the sort places the
    columns of that field together at its first position. *)
Example selectVisible_repeated_field :
  map (fun c => (field c, minWidth c))
    (selectVisible
       [ col "f" (Some true) (Some "1px"); col "g" (Some true) None;
         col "f" (Some true) (Some "2px") ] 0)
  = [ ("f", Some "1px"); ("f", Some "2px"); ("g", None) ].
Proof. reflexivity. Qed.

Lemma countField_app f l1 l2 :
  countField f (l1 ++ l2) = (countField f l1 + countField f l2)%nat.
Proof. unfold countField. rewrite List.filter_app, length_app. reflexivity. Qed.

Lemma countField_absent f l :
  Forall (fun c => field c <> f) l -> countField f l = 0%nat.
Proof.
  intros H. unfold countField. rewrite filter_none; [reflexivity|].
  eapply List.Forall_impl; [|exact H]. intros c Hc. apply String.eqb_neq, Hc.
Qed.

Lemma countField_perm f l1 l2 :
  Permutation l1 l2 -> countField f l1 = countField f l2.
Proof.
  intros H. unfold countField. apply Permutation_length.
  induction H as [|x l1 l2 H IH|x y l|l1 l2 l3 H1 IH1 H2 IH2]; simpl.
  - reflexivity.
  - destruct (String.eqb _ _); [apply perm_skip|]; exact IH.
  - destruct (String.eqb (field x) f), (String.eqb (field y) f);
      try reflexivity. apply perm_swap.
  - etransitivity; eassumption.
Qed.

Lemma countField_In f l c : In c l -> field c = f -> (1 <= countField f l)%nat.
Proof.
  intros Hin Hf. unfold countField.
  assert (H : In c (List.filter (fun c => String.eqb (field c) f) l)).
  { apply filter_In. split; [assumption|]. apply String.eqb_eq, Hf. }
  destruct (List.filter _ l); [destruct H|simpl; lia].
Qed.

Lemma countField_two f l i j a b :
  i <> j -> nth_error l i = Some a -> nth_error l j = Some b ->
  field a = f -> field b = f -> (2 <= countField f l)%nat.
Proof.
  revert i j. induction l as [|x l IH]; intros i j Hij Ha Hb Hfa Hfb.
  - destruct i; discriminate.
  - change (x :: l) with ([x] ++ l). rewrite countField_app.
    destruct i as [|i], j as [|j]; simpl in Ha, Hb.
    + congruence.
    + injection Ha as ->. apply nth_error_In in Hb.
      pose proof (countField_In f l b Hb Hfb).
      pose proof (countField_In f [a] a (or_introl eq_refl) Hfa). lia.
    + injection Hb as ->. apply nth_error_In in Ha.
      pose proof (countField_In f l a Ha Hfa).
      pose proof (countField_In f [b] b (or_introl eq_refl) Hfb). lia.
    + assert (i <> j) by congruence.
      pose proof (IH i j H Ha Hb Hfa Hfb). lia.
Qed.

Lemma pass2_optionalOnce w l vis acc :
  optionalOnce vis -> optionalOnce (fst (pass2 w l (vis, acc))).
Proof.
  revert vis acc; induction l as [|c l IH]; intros vis acc Hinv; [assumption|].
  rewrite pass2_cons.
  destruct (pass2_step_cases w vis acc c) as [-> | (-> & Hm & Hf & _)]; [auto|].
  apply IH. apply findByField_None in Hf.
  intros a Ha Hma. rewrite countField_app.
  apply in_app_or in Ha as [Ha|[<-|[]]].
  - rewrite (Hinv a Ha Hma).
    rewrite (countField_absent (field a) [c]); [lia|].
    repeat constructor. rewrite List.Forall_forall in Hf.
    intros E. exact (Hf a Ha (eq_sym E)).
  - rewrite (countField_absent (field c) vis) by assumption.
    unfold countField; simpl. rewrite String.eqb_refl. reflexivity.
Qed.

Lemma selectVisible_optionalOnce master w : optionalOnce (selectVisible master w).
Proof.
  assert (H : optionalOnce (selected master w)).
  { unfold selected. rewrite pass1_eq. apply pass2_optionalOnce.
    intros c Hc Hm. apply filter_In in Hc as [_ Hc]. congruence. }
  intros c Hc Hm.
  rewrite <- (countField_perm _ _ _ (selectVisible_perm master w)).
  apply H; [|assumption]. apply selectVisible_In, Hc.
Qed.

(** C10. Whatever the master list, duplicate fields included, and
    whatever the width, two entries of the output of [selectVisible] that
    carry the same field both have [mustShow = true]; in the second pass a
    column without [mustShow] is skipped, whatever the width, as soon as
    a selected column has its field. *)
Theorem selectVisible_duplicates_mandatory
  (masterColumns : list ColumnDefinition) (w : Z) :
  (forall i j a b,
      i <> j ->
      nth_error (selectVisible masterColumns w) i = Some a ->
      nth_error (selectVisible masterColumns w) j = Some b ->
      field a = field b ->
      mustShow a = Some true /\ mustShow b = Some true)
  /\ (forall vis acc c,
         mustShow c <> Some true ->
         (exists c', In c' vis /\ field c' = field c) ->
         pass2_step w (vis, acc) c = (vis, acc)).
Proof.
  split.
  - intros i j a b Hij Ha Hb Hf.
    pose proof (selectVisible_optionalOnce masterColumns w) as Hinv.
    pose proof (countField_two (field a) _ i j a b Hij Ha Hb eq_refl (eq_sym Hf)) as H2.
    split; apply isMandatory_true.
    + destruct (isMandatory a) eqn:Hm; [reflexivity|].
      rewrite (Hinv a (nth_error_In _ _ Ha) Hm) in H2. lia.
    + destruct (isMandatory b) eqn:Hm; [reflexivity|].
      rewrite Hf in H2. rewrite (Hinv b (nth_error_In _ _ Hb) Hm) in H2. lia.
  - intros vis acc c _ (c' & Hin & Hf). apply pass2_step_present.
    intros Hnone. apply findByField_None in Hnone.
    rewrite List.Forall_forall in Hnone. exact (Hnone c' Hin Hf).
Qed.

Lemma selectVisible_duplicates_mandatory_witness :
  let cols := [ col "id" (Some true) (Some "60px"); col "name" None (Some "50px");
                col "id" (Some true) (Some "70px"); col "name" None (Some "10px");
                col "id" None (Some "1px") ] in
  map (fun c => (field c, minWidth c)) (selectVisible cols 1000)
  = [("id", Some "60px"); ("id", Some "70px"); ("name", Some "50px")]
  /\ mustShow (col "id" (Some true) (Some "60px")) = Some true
  /\ mustShow (col "id" (Some true) (Some "70px")) = Some true
  /\ pass2_step 1000 ([col "id" (Some true) (Some "60px")], 60) (col "id" None (Some "1px"))
     = ([col "id" (Some true) (Some "60px")], 60).
Proof.
  intros cols.
  destruct (selectVisible_duplicates_mandatory cols 1000) as [Hpairs Hskip].
  split; [reflexivity|].
  destruct (Hpairs 0%nat 1%nat (col "id" (Some true) (Some "60px"))
              (col "id" (Some true) (Some "70px")))
    as [H1 H2]; [discriminate|reflexivity|reflexivity|reflexivity|].
  split; [exact H1|]. split; [exact H2|].
  apply Hskip; [simpl; discriminate|].
  exists (col "id" (Some true) (Some "60px")). split; [left|]; reflexivity.
Defined.

(** ** Width and the greedy pass *)

Lemma optionalWidthsAscend_tail c l :
  optionalWidthsAscend (c :: l) -> optionalWidthsAscend l.
Proof.
  unfold optionalWidthsAscend. simpl. destruct (isOptional c); [|auto].
  intros H. inversion H; assumption.
Qed.

Lemma optionalWidthsAscend_head c l a :
  optionalWidthsAscend (c :: l) -> isMandatory c = false ->
  In a l -> isMandatory a = false -> colMinWidth c <= colMinWidth a.
Proof.
  unfold optionalWidthsAscend, isOptional. simpl. intros H Hc Ha Hma.
  rewrite Hc in H. simpl in H. inversion H as [|? ? _ Hall]; subst.
  rewrite List.Forall_forall in Hall. apply Hall, filter_In.
  split; [assumption|]. rewrite Hma. reflexivity.
Qed.

(** With ascending optional widths, what the second pass selects at a
    width is still selected at any larger width. *)
Lemma pass2_monotone w1 w2 l vis acc :
  w1 <= w2 -> optionalWidthsAscend l ->
  incl (fst (pass2 w1 l (vis, acc))) (fst (pass2 w2 l (vis, acc))).
Proof.
  intros Hw. revert vis acc. induction l as [|c l IH]; intros vis acc Hasc.
  - apply incl_refl.
  - pose proof (optionalWidthsAscend_tail _ _ Hasc) as Hasc'.
    rewrite !pass2_cons.
    destruct (isMandatory c) eqn:Hm.
    { rewrite !pass2_step_mandatory by assumption. apply IH, Hasc'. }
    destruct (findByField vis (field c)) eqn:Hf.
    { rewrite !pass2_step_present by congruence. apply IH, Hasc'. }
    rewrite !pass2_step_absent by assumption.
    destruct (Z.gtb_spec w1 (acc + colMinWidth c)) as [H1|H1].
    + destruct (Z.gtb_spec w2 (acc + colMinWidth c)) as [H2|H2]; [|lia].
      apply IH, Hasc'.
    + rewrite (pass2_stuck w1 l vis acc).
      * simpl. fold (pass2_step w2 (vis, acc) c).
        destruct (Z.gtb_spec w2 (acc + colMinWidth c)) as [H2|H2].
        -- destruct (pass2_extends w2 l (vis ++ [c]) (acc + colMinWidth c))
             as (extra & -> & _).
           rewrite <- app_assoc. apply incl_appl, incl_refl.
        -- destruct (pass2_extends w2 l vis acc) as (extra & -> & _).
           apply incl_appl, incl_refl.
      * intros a Ha Hma.
        pose proof (optionalWidthsAscend_head c l a Hasc Hm Ha Hma). lia.
Qed.

(** The claim of C1 fails on the code: a wide early column that does not
    fit at the smaller width takes, at the larger width, the room that a
    later narrow column used. *)
Lemma selectVisible_not_monotone :
  let a := col "a" None (Some "200px") in
  let b := col "b" None (Some "50px") in
  100 <= 201
  /\ In b (selectVisible [a; b] 100)
  /\ ~ In b (selectVisible [a; b] 201).
Proof.
  intros a b. split; [lia|]. split.
  - vm_compute. left; reflexivity.
  - vm_compute. intros [H|[]]. discriminate H.
Qed.

(** C1, amended. For a master column list whose optional columns ask for
    non-decreasing minimum widths along the master order, and widths
    [w1 <= w2], every column of [selectVisible masterColumns w1] is a
    column of [selectVisible masterColumns w2]. *)
Theorem selectVisible_monotone_ascending
  (masterColumns : list ColumnDefinition) (w1 w2 : Z) (c : ColumnDefinition) :
  optionalWidthsAscend masterColumns ->
  w1 <= w2 ->
  In c (selectVisible masterColumns w1) ->
  In c (selectVisible masterColumns w2).
Proof.
  intros Hasc Hw Hin. apply selectVisible_In. apply selectVisible_In in Hin.
  unfold selected in *. destruct (pass1 masterColumns) as [vis acc].
  eapply pass2_monotone; eassumption.
Qed.

Lemma selectVisible_monotone_ascending_witness :
  let cols := [ col "id" (Some true) (Some "300px"); col "a" None (Some "50px");
                col "b" None (Some "50px"); col "c" None (Some "200px") ] in
  optionalWidthsAscend cols
  /\ 360 <= 420
  /\ In (col "a" None (Some "50px")) (selectVisible cols 360)
  /\ In (col "a" None (Some "50px")) (selectVisible cols 420).
Proof.
  intros cols.
  assert (H1 : optionalWidthsAscend cols).
  { unfold optionalWidthsAscend; simpl.
    repeat constructor; vm_compute; discriminate. }
  assert (H2 : 360 <= 420) by lia.
  assert (H3 : In (col "a" None (Some "50px")) (selectVisible cols 360)).
  { vm_compute. right; left; reflexivity. }
  split; [exact H1|]. split; [exact H2|]. split; [exact H3|].
  apply (selectVisible_monotone_ascending cols 360 420 _ H1 H2 H3).
Defined.

(** A missing, empty or unparsable [minWidth] counts as 100. *)
Lemma colMinWidth_default c :
  minWidth c = None \/ (exists s, minWidth c = Some s /\ parseInt s = None) ->
  colMinWidth c = 100.
Proof.
  unfold colMinWidth. intros [-> | (s & -> & Hs)]; [reflexivity|].
  destruct s as [|ch s]; [reflexivity|]. simpl minWidthOrDefault.
  unfold parseMinWidth. rewrite Hs. reflexivity.
Qed.

(** C2. In the second pass, take an optional column [c] of the master
    list that is not yet selected when its turn comes, [used] being the
    width accumulated so far. The pass appends [c] and adds its minimum
    width to [used] exactly when [w > used + colMinWidth c], and leaves the
    selection as it is otherwise, in particular when
    [w = used + colMinWidth c]; a missing or unparsable [minWidth] counts
    as 100. When [c] does not occur again later in the list, it is in the
    output of [selectVisible] exactly when [w > used + colMinWidth c]. *)
Theorem pass2_includes_iff_fits
  (pre post vis : list ColumnDefinition) (c : ColumnDefinition) (w used : Z) :
  let masterColumns := pre ++ c :: post in
  mustShow c <> Some true ->
  pass2 w pre (pass1 masterColumns) = (vis, used) ->
  findByField vis (field c) = None ->
  pass2 w (pre ++ [c]) (pass1 masterColumns)
  = (if w >? used + colMinWidth c
     then (vis ++ [c], used + colMinWidth c)
     else (vis, used))
  /\ (w = used + colMinWidth c ->
      pass2 w (pre ++ [c]) (pass1 masterColumns) = (vis, used))
  /\ (minWidth c = None \/ (exists s, minWidth c = Some s /\ parseInt s = None) ->
      colMinWidth c = 100)
  /\ (~ In c post ->
      (In c (selectVisible masterColumns w) <-> w > used + colMinWidth c)).
Proof.
  intros master Hopt Hpre Hnew.
  apply isMandatory_false in Hopt.
  assert (Hstep : pass2 w (pre ++ [c]) (pass1 master)
                  = if w >? used + colMinWidth c
                    then (vis ++ [c], used + colMinWidth c) else (vis, used)).
  { rewrite pass2_app, Hpre. simpl. fold (pass2_step w (vis, used) c).
    apply pass2_step_absent; assumption. }
  split; [exact Hstep|]. split; [|split; [apply colMinWidth_default|]].
  - intros ->. rewrite Hstep.
    destruct (Z.gtb_spec (used + colMinWidth c) (used + colMinWidth c)); [lia|reflexivity].
  - intros Hpost. rewrite selectVisible_In. unfold selected.
    assert (Hvis : ~ In c vis).
    { intros Hin. apply findByField_None in Hnew.
      rewrite List.Forall_forall in Hnew. exact (Hnew c Hin eq_refl). }
    replace master with ((pre ++ [c]) ++ post)
      by (unfold master; rewrite <- app_assoc; reflexivity).
    rewrite pass2_app.
    replace ((pre ++ [c]) ++ post) with master
      by (unfold master; rewrite <- app_assoc; reflexivity).
    rewrite Hstep.
    destruct (Z.gtb_spec w (used + colMinWidth c)) as [Hfit|Hfit].
    + destruct (pass2_extends w post (vis ++ [c]) (used + colMinWidth c))
        as (extra & -> & _).
      split; [lia|]. intros _. apply in_or_app. left. apply in_or_app.
      right. left. reflexivity.
    + destruct (pass2_extends w post vis used) as (extra & -> & F).
      split; [|lia]. intros Hin. exfalso.
      apply in_app_or in Hin as [Hin|Hin]; [exact (Hvis Hin)|].
      rewrite List.Forall_forall in F. apply Hpost, F, Hin.
Qed.

Lemma pass2_includes_iff_fits_witness :
  let id := col "id" (Some true) (Some "60px") in
  let email := col "email" None (Some "200px") in
  let phone := col "phone" None None in
  mustShow phone <> Some true
  /\ pass2 360 [id; email] (pass1 [id; email; phone]) = ([id; email], 260)
  /\ findByField [id; email] (field phone) = None
  /\ pass2 360 [id; email; phone] (pass1 [id; email; phone]) = ([id; email], 260)
  /\ ~ In phone (selectVisible [id; email; phone] 360).
Proof.
  intros id email phone.
  assert (H1 : mustShow phone <> Some true) by discriminate.
  assert (H2 : pass2 360 [id; email] (pass1 ([id; email] ++ phone :: []))
               = ([id; email], 260)) by reflexivity.
  assert (H3 : findByField [id; email] (field phone) = None) by reflexivity.
  destruct (pass2_includes_iff_fits [id; email] [] [id; email] phone 360 260 H1 H2 H3)
    as (_ & Hedge & _ & Hout).
  split; [exact H1|]. split; [exact H2|]. split; [exact H3|].
  split.
  - apply Hedge. reflexivity.
  - intros Hin. apply Hout in Hin; [|intros []].
    vm_compute in Hin. discriminate Hin.
Defined.

(** ** The first pass *)

(** The claim of C5 fails on the code: the width of a mandatory column is
    added as parsed, without a lower bound of 0. *)
Lemma pass1_not_clamped :
  let m := col "m" (Some true) (Some "-50px") in
  let b := col "b" None (Some "100px") in
  snd (pass1 [m; b]) = -50
  /\ snd (pass1_clamped [m; b]) = 0
  /\ In b (selectVisible [m; b] 60)
  /\ ~ 60 > snd (pass1_clamped [m; b]) + colMinWidth b.
Proof.
  intros m b. split; [reflexivity|]. split; [reflexivity|]. split.
  - vm_compute. right; left; reflexivity.
  - vm_compute. intros H; discriminate H.
Qed.

Lemma pass1_clamped_fold l vis acc :
  fold_left pass1_step_clamped l (vis, acc)
  = (vis ++ List.filter isMandatory l,
     acc + fold_right (fun c s => Z.max (colMinWidth c) 0 + s) 0 (List.filter isMandatory l)).
Proof.
  revert vis acc; induction l as [|c l IH]; intros vis acc;
    cbn [fold_left List.filter].
  - rewrite app_nil_r. f_equal. simpl; lia.
  - unfold pass1_step_clamped at 2. fold (isMandatory c). destruct (isMandatory c).
    + rewrite IH, <- app_assoc. cbn [fold_right app]. f_equal; lia.
    + apply IH.
Qed.

(** C5, amended. The first pass selects every column with
    [mustShow = true], in master order and whatever the available width,
    and each of them is in the output of [selectVisible]; for each one the
    accumulated width grows by its parsed minimum width as it is (100 when
    missing or unparsable), with no lower bound of 0. The accumulated width
    is the one the clamped reading gives whenever no mandatory column asks
    for a negative width. *)
Theorem pass1_selects_mandatory (masterColumns : list ColumnDefinition) (w : Z) :
  fst (pass1 masterColumns) = List.filter isMandatory masterColumns
  /\ (forall c, In c masterColumns -> mustShow c = Some true ->
                In c (selectVisible masterColumns w))
  /\ (forall vis acc c, mustShow c = Some true ->
                pass1_step (vis, acc) c = (vis ++ [c], acc + colMinWidth c))
  /\ snd (pass1 masterColumns) = sumWidths (List.filter isMandatory masterColumns)
  /\ (forall c, minWidth c = None \/ (exists s, minWidth c = Some s /\ parseInt s = None) ->
                colMinWidth c = 100)
  /\ (Forall (fun c => 0 <= colMinWidth c) (List.filter isMandatory masterColumns) ->
      pass1 masterColumns = pass1_clamped masterColumns).
Proof.
  rewrite pass1_eq. split; [reflexivity|]. split; [|split; [|split; [reflexivity|split]]].
  - intros c Hin Hm. apply selectVisible_In.
    destruct (selected_eq masterColumns w) as (extra & -> & _).
    apply in_or_app. left. apply filter_In. split; [assumption|].
    apply isMandatory_true, Hm.
  - intros vis acc c Hm. rewrite pass1_step_eq.
    apply isMandatory_true in Hm. rewrite Hm. reflexivity.
  - apply colMinWidth_default.
  - intros Hpos. unfold pass1_clamped. rewrite pass1_clamped_fold. simpl.
    f_equal. induction Hpos as [|c l Hc _ IH]; [reflexivity|].
    rewrite sumWidths_cons, IH. cbn [fold_right]. lia.
Qed.

Lemma pass1_selects_mandatory_witness :
  let cols := [ col "id" (Some true) (Some "60px"); col "email" None (Some "200px");
                col "name" (Some true) None ] in
  fst (pass1 cols) = [ col "id" (Some true) (Some "60px"); col "name" (Some true) None ]
  /\ snd (pass1 cols) = 160
  /\ In (col "name" (Some true) None) (selectVisible cols (-10))
  /\ pass1 cols = pass1_clamped cols.
Proof.
  intros cols.
  destruct (pass1_selects_mandatory cols (-10)) as (H1 & H2 & _ & H4 & _ & H6).
  split; [exact H1|]. split; [exact H4|]. split.
  - apply H2; [right; right; left|]; reflexivity.
  - apply H6. repeat constructor; vm_compute; discriminate.
Defined.

(** ** Headers *)

Section Headers.

Variable toUpperCase : string -> string.

Lemma capitalizeHeader_lower key :
  startsUpper key = false -> key <> EmptyString ->
  capitalizeHeader toUpperCase key = specHeader toUpperCase key.
Proof.
  destruct key as [|c rest]; [congruence|]. simpl. intros Hc _.
  unfold capitalizeHeader, specHeader. simpl. rewrite Hc. reflexivity.
Qed.

Lemma capitalizeHeader_upper c rest :
  isUpperAZ c = true ->
  capitalizeHeader toUpperCase (String c rest)
  = (toUpperCase " " ++ String c (insertSpaces rest))%string.
Proof.
  intros Hc. unfold capitalizeHeader. simpl. rewrite Hc. reflexivity.
Qed.

End Headers.

Example capitalizeHeader_createdAt :
  capitalizeHeader asciiToUpperCase "createdAt" = "Created At".
Proof. reflexivity. Qed.

(** The claim of C6 fails on the code for a key that begins with an
    uppercase letter: the space goes before that letter too. *)
Lemma capitalizeHeader_leading_space :
  capitalizeHeader asciiToUpperCase "Name" = " Name"
  /\ specHeader asciiToUpperCase "Name" = "Name"
  /\ capitalizeHeader asciiToUpperCase "Name" <> specHeader asciiToUpperCase "Name".
Proof.
  split; [reflexivity|]. split; [reflexivity|]. vm_compute. discriminate.
Qed.

(** C6, amended. The inferred header is the key with a space inserted
    before every uppercase letter A-Z, the first character included, and
    the first character of the result upper-cased. The empty key gives the
    empty header; a key that does not begin with an uppercase letter gives
    the header of the claim (['createdAt'] gives ['Created At']); a key that
    begins with an uppercase letter gives that letter and the spaced rest
    behind the upper-cased space. *)
Theorem capitalizeHeader_spaces (toUpperCase : string -> string) (key : string) :
  match key with
  | EmptyString => capitalizeHeader toUpperCase key = EmptyString
  | String c rest =>
      if isUpperAZ c
      then capitalizeHeader toUpperCase key
           = (toUpperCase " " ++ String c (insertSpaces rest))%string
      else capitalizeHeader toUpperCase key = specHeader toUpperCase key
  end.
Proof.
  destruct key as [|c rest]; [reflexivity|].
  destruct (isUpperAZ c) eqn:Hc.
  - apply capitalizeHeader_upper, Hc.
  - apply capitalizeHeader_lower; [exact Hc|discriminate].
Qed.

(** ** Type guessing *)

Lemma isDigit_spec c : isDigit c = true <-> isDecimalDigit c.
Proof.
  unfold isDigit, isDecimalDigit. rewrite andb_true_iff, !Z.leb_le. tauto.
Qed.

Lemma itemTest_spec p c : itemTest p c = true <-> itemMatches p c.
Proof.
  destruct p as [|d]; simpl; [apply isDigit_spec|apply Ascii.eqb_eq].
Qed.

Lemma testPrefix_spec pat s : testPrefix pat s = true <-> startsWith pat s.
Proof.
  revert s; induction pat as [|p pat IH]; intros s; simpl.
  - split; [|reflexivity]. intros _. exists [], s. split; [reflexivity|constructor].
  - destruct s as [|c s].
    + split; [discriminate|]. intros (pre & rest & E & F).
      inversion F; subst. discriminate E.
    + rewrite andb_true_iff, itemTest_spec, IH. split.
      * intros (Hc & pre & rest & -> & F). exists (c :: pre), rest.
        split; [reflexivity|constructor; assumption].
      * intros (pre & rest & E & F). inversion F as [|? c' ? pre' Hc F']; subst.
        simpl in E. injection E as -> ->. split; [assumption|].
        exists pre', rest. split; [reflexivity|assumption].
Qed.

(** The regular expression of the code has the shape the specification
    words. *)
Lemma isoDateTimePattern_shape : isoDateTimePattern = dateTimeShape.
Proof. reflexivity. Qed.

Lemma guessType_string_value s :
  guessType (VString s) = TDate <-> startsWith dateTimeShape s.
Proof.
  rewrite <- isoDateTimePattern_shape, <- testPrefix_spec. unfold guessType.
  destruct (testPrefix isoDateTimePattern s); split; congruence.
Qed.

Lemma isDateLike_string s : isDateLike (VString s) <-> startsWith dateTimeShape s.
Proof.
  unfold isDateLike. split.
  - intros [(t & E)|(s' & E & H)]; [discriminate E|]. injection E as ->. exact H.
  - intros H. right. exists s. split; [reflexivity|exact H].
Qed.

Ltac guessType_cases v :=
  destruct v as [| |?b|?n|?z|?s| |?t|]; unfold guessType;
  try match goal with
      | |- context [testPrefix isoDateTimePattern ?s] =>
          destruct (testPrefix isoDateTimePattern s)
      end.

Lemma guessType_boolean v : guessType v = TBoolean <-> exists b, v = VBoolean b.
Proof.
  guessType_cases v;
    (split; [intros H; try discriminate H; eauto
            |intros [x Hx]; try discriminate Hx; reflexivity]).
Qed.

Lemma guessType_number v : guessType v = TNumber <-> exists n, v = VNumber n.
Proof.
  guessType_cases v;
    (split; [intros H; try discriminate H; eauto
            |intros [x Hx]; try discriminate Hx; reflexivity]).
Qed.

Lemma guessType_date v : guessType v = TDate <-> isDateLike v.
Proof.
  destruct v as [| |b|n|z|s| |t|];
    try (rewrite isDateLike_string; apply guessType_string_value);
    unfold guessType; split; intros H; try discriminate H; try reflexivity;
    try (destruct H as [(? & E)|(? & E & _)]; discriminate E).
  left. exists t. reflexivity.
Qed.

Lemma guessType_range v :
  guessType v = TBoolean \/ guessType v = TDate
  \/ guessType v = TNumber \/ guessType v = TString.
Proof. guessType_cases v; auto. Qed.

(** C7. The inferred type follows the decision table: a boolean gives
    [boolean]; a Date object, or a string that starts with four digits,
    dash, two digits, dash, two digits, T, two digits, colon, two digits,
    colon, two digits, gives [date]; a number gives [number]; everything
    else gives [string]. The filter kind is [date] for [date], [numeric]
    for [number], [boolean] for [boolean] and [text] otherwise. *)
Theorem guessType_decision_table (value : JsValue) :
  (guessType value = TBoolean <-> exists b, value = VBoolean b)
  /\ (guessType value = TDate <-> isDateLike value)
  /\ (guessType value = TNumber <-> exists n, value = VNumber n)
  /\ (guessType value = TString <->
      ~ (exists b, value = VBoolean b) /\ ~ isDateLike value
      /\ ~ (exists n, value = VNumber n))
  /\ (guessFilterType (guessType value) = FDate <-> guessType value = TDate)
  /\ (guessFilterType (guessType value) = FNumeric <-> guessType value = TNumber)
  /\ (guessFilterType (guessType value) = FBoolean <-> guessType value = TBoolean)
  /\ (guessFilterType (guessType value) = FText <->
      guessType value <> TDate /\ guessType value <> TNumber
      /\ guessType value <> TBoolean).
Proof.
  split; [apply guessType_boolean|]. split; [apply guessType_date|].
  split; [apply guessType_number|]. split.
  - rewrite <- guessType_boolean, <- guessType_date, <- guessType_number.
    destruct (guessType_range value) as [E|[E|[E|E]]]; rewrite E;
      split; try discriminate; try (intros (? & ? & ?); congruence).
    intros _. repeat split; discriminate.
  - destruct (guessType value); simpl; repeat split;
      try discriminate; try congruence;
      try (intros (? & ? & ?); congruence).
Qed.

(** The examples of type guessing. *)
Example infer_examples :
  infer asciiToUpperCase
    (Some [ ("active", VBoolean true); ("createdAt", VString "2024-01-15T10:30:00Z");
            ("id", VNumber (NumFinite 1 0)); ("name", VString "Jane") ]) false
  = [ mkColumn "active" "Active" (Some TBoolean) (Some false) (Some FBoolean) None (Some "100px");
      mkColumn "createdAt" "Created At" (Some TDate) (Some false) (Some FDate) None (Some "100px");
      mkColumn "id" "Id" (Some TNumber) (Some false) (Some FNumeric) None (Some "100px");
      mkColumn "name" "Name" (Some TString) (Some false) (Some FText) None (Some "100px") ].
Proof. reflexivity. Qed.

(** ** Degenerate inputs *)

Lemma infer_length (toUpperCase : string -> string) (sample : JsRecord) (flag : bool) :
  length (infer toUpperCase (Some sample) flag) = length sample.
Proof. unfold infer, deriveColumnsFromData, keys. simpl. rewrite !length_map. reflexivity. Qed.

Lemma pass1_entries_present cols st :
  fold_left pass1_entry (map Some cols) (Returns st)
  = Returns (fold_left pass1_step cols st).
Proof.
  revert st; induction cols as [|c cols IH]; intros st; [reflexivity|]. simpl. apply IH.
Qed.

Lemma pass2_entries_present w cols st :
  fold_left (pass2_entry w) (map Some cols) (Returns st)
  = Returns (pass2 w cols st).
Proof.
  revert st; induction cols as [|c cols IH]; intros st; [reflexivity|]. simpl. apply IH.
Qed.

Lemma pass1_entries_raised entries :
  fold_left pass1_entry entries RaisesTypeError = RaisesTypeError.
Proof. induction entries as [|e entries IH]; [reflexivity|]. simpl. exact IH. Qed.

Lemma pass2_entries_raised w entries :
  fold_left (pass2_entry w) entries RaisesTypeError = RaisesTypeError.
Proof. induction entries as [|e entries IH]; [reflexivity|]. simpl. exact IH. Qed.

Lemma pass1_entries_missing entries st :
  In None entries -> fold_left pass1_entry entries (Returns st) = RaisesTypeError.
Proof.
  revert st; induction entries as [|e entries IH]; intros st Hin; [destruct Hin|].
  destruct e as [c|]; simpl.
  - destruct Hin as [H|Hin]; [discriminate H|]. apply IH, Hin.
  - apply pass1_entries_raised.
Qed.

Lemma presentEntries_present cols : presentEntries (map Some cols) = cols.
Proof.
  induction cols as [|c cols IH]; [reflexivity|].
  unfold presentEntries in *. simpl. rewrite IH. reflexivity.
Qed.

Lemma entries_all_present entries :
  ~ In None entries -> entries = map Some (presentEntries entries).
Proof.
  induction entries as [|e entries IH]; intros H; [reflexivity|].
  destruct e as [c|]; [|exfalso; apply H; left; reflexivity].
  unfold presentEntries in *. simpl. rewrite <- IH; [reflexivity|].
  intros Hin. apply H. right. exact Hin.
Qed.

Lemma entries_cases entries :
  In None entries \/ entries = map Some (presentEntries entries).
Proof.
  induction entries as [|e entries IH]; [right; reflexivity|].
  destruct e as [c|]; [|left; left; reflexivity].
  destruct IH as [Hin|Hall]; [left; right; exact Hin|right].
  apply entries_all_present. intros [H|Hin]; [discriminate H|].
  rewrite Hall in Hin. apply in_map_iff in Hin as (x & Hx & _). discriminate Hx.
Qed.

Lemma updateResponsiveColumns_nullable_present this cols :
  updateResponsiveColumns_nullable this (Some (map Some cols))
  = Returns (setResponsive this (selectVisible cols (offsetWidth this))).
Proof.
  unfold updateResponsiveColumns_nullable.
  destruct cols as [|c cols]; [reflexivity|].
  change (Some c :: map Some cols) with (map Some (c :: cols)).
  rewrite pass1_entries_present, pass2_entries_present, presentEntries_present.
  rewrite selectVisible_eq. fold (pass1 (c :: cols)).
  destruct (pass2 (offsetWidth this) (c :: cols) (pass1 (c :: cols))); reflexivity.
Qed.

Lemma updateResponsiveColumns_nullable_missing this entries :
  In None entries ->
  updateResponsiveColumns_nullable this (Some entries) = RaisesTypeError.
Proof.
  intros Hin. unfold updateResponsiveColumns_nullable.
  destruct entries as [|e entries]; [destruct Hin|].
  rewrite (pass1_entries_missing (e :: entries) _ Hin), pass2_entries_raised.
  reflexivity.
Qed.

(** The claim of C8 fails on the code: a first data row that is [null]
    makes [deriveColumnsFromData] raise, and an entry of the master list
    that is [null] makes [updateResponsiveColumns] raise. *)
Lemma core_raises_on_null :
  let this := {| data := None; enableColumnFiltering := None; derivedColumns := [];
                 allMasterColumns := None; responsiveDisplayColumns := [];
                 offsetWidth := 800 |} in
  deriveColumnsFromData_nullable asciiToUpperCase this
    (Some [RowNull; RowObject [("id", VNumber (NumFinite 1 0))]])
  = RaisesTypeError
  /\ updateResponsiveColumns_nullable this (Some [Some (col "id" None None); None])
     = RaisesTypeError.
Proof. intros this. split; reflexivity. Qed.

(** C8, amended. Both operations return without raising on every input
    whose first data row and whose master-list entries are not [null] or
    [undefined], and only on those: inference raises exactly when the
    first row of a non-empty [data] is [null] or [undefined], the column
    selection exactly when a master-list entry is. On the other inputs,
    inference gives the empty schema when there is no sample record or
    the sample record has no field, and one column per field otherwise;
    [selectVisible] on an empty master list gives the empty result, and
    always gives columns of the master list; an unparsable [minWidth] is
    replaced by 100. *)
Theorem core_degrades_gracefully (toUpperCase : string -> string) :
  (forall this rows,
      deriveColumnsFromData_nullable toUpperCase this rows = RaisesTypeError
      <-> exists rest, rows = Some (RowNull :: rest) \/ rows = Some (RowUndefined :: rest))
  /\ (forall this,
         deriveColumnsFromData_nullable toUpperCase this
           (option_map (map RowObject) (data this))
         = Returns (deriveColumnsFromData toUpperCase this))
  /\ (forall this entries,
         updateResponsiveColumns_nullable this entries = RaisesTypeError
         <-> exists master, entries = Some master /\ In None master)
  /\ (forall this cols,
         updateResponsiveColumns_nullable this (Some (map Some cols))
         = Returns (setResponsive this (selectVisible cols (offsetWidth this))))
  /\ (forall this,
         data this = None \/ data this = Some []
         \/ (exists rest, data this = Some ([] :: rest)) ->
         derivedColumns (deriveColumnsFromData toUpperCase this) = [])
  /\ (forall flag, infer toUpperCase None flag = []
                   /\ infer toUpperCase (Some []) flag = [])
  /\ (forall sample flag,
         map field (infer toUpperCase (Some sample) flag) = keys sample)
  /\ (forall this,
         allMasterColumns this = None \/ allMasterColumns this = Some [] ->
         responsiveDisplayColumns (updateResponsiveColumns this) = [])
  /\ (forall w, selectVisible [] w = [])
  /\ (forall master w c, In c (selectVisible master w) -> In c master)
  /\ (forall s, parseInt s = None -> parseMinWidth s = 100)
  /\ (forall c,
         minWidth c = None \/ (exists s, minWidth c = Some s /\ parseInt s = None) ->
         colMinWidth c = 100).
Proof.
  split; [|split; [|split; [|split; [|repeat split]]]].
  - intros this rows. unfold deriveColumnsFromData_nullable. split.
    + destruct rows as [[|[| |r] rest]|]; try discriminate; intros _; eauto.
    + intros (rest & [-> | ->]); reflexivity.
  - intros this. unfold deriveColumnsFromData_nullable, deriveColumnsFromData.
    destruct (data this) as [[|r rest]|]; reflexivity.
  - intros this entries. split.
    + intros H. destruct entries as [master|]; [|discriminate H].
      exists master. split; [reflexivity|].
      destruct (entries_cases master) as [Hin|Hall]; [exact Hin|exfalso].
      rewrite Hall, updateResponsiveColumns_nullable_present in H. discriminate H.
    + intros (master & -> & Hin). apply updateResponsiveColumns_nullable_missing, Hin.
  - apply updateResponsiveColumns_nullable_present.
  - intros this [H|[H|(rest & H)]]; unfold deriveColumnsFromData; rewrite H; reflexivity.
  - intros sample flag. unfold infer, deriveColumnsFromData. simpl.
    rewrite map_map. simpl. apply map_id.
  - intros this [H|H]; unfold updateResponsiveColumns; rewrite H; reflexivity.
  - intros master w c Hc. apply selectVisible_In, selected_In in Hc. exact Hc.
  - intros s H. unfold parseMinWidth. rewrite H. reflexivity.
  - apply colMinWidth_default.
Qed.

Lemma core_degrades_gracefully_witness :
  let this := {| data := Some [ [] ; [("id", VNumber (NumFinite 1 0))] ];
                 enableColumnFiltering := Some true;
                 derivedColumns := [col "old" None None];
                 allMasterColumns := None;
                 responsiveDisplayColumns := [col "old" None None];
                 offsetWidth := 800 |} in
  deriveColumnsFromData_nullable asciiToUpperCase this
    (Some [RowObject []; RowNull])
  = Returns (deriveColumnsFromData asciiToUpperCase this)
  /\ derivedColumns (deriveColumnsFromData asciiToUpperCase this) = []
  /\ updateResponsiveColumns_nullable this (Some [Some (col "id" None None)])
     = Returns (setResponsive this [col "id" None None])
  /\ responsiveDisplayColumns (updateResponsiveColumns this) = []
  /\ parseMinWidth "wide" = 100
  /\ colMinWidth (col "note" None (Some "auto")) = 100.
Proof.
  intros this.
  destruct (core_degrades_gracefully asciiToUpperCase)
    as (_ & Hobj & _ & Hcols & Hdata & _ & _ & Hmaster & _ & _ & Hparse & Hwidth).
  split; [exact (Hobj this)|].
  split; [apply Hdata; right; right; eexists; reflexivity|].
  split; [exact (Hcols this [col "id" None None])|].
  split; [apply Hmaster; left; reflexivity|].
  split; [apply Hparse; reflexivity|].
  apply Hwidth. right. exists "auto". split; reflexivity.
Defined.

(** * Further properties of the column selection *)

Lemma sumWidths_perm l1 l2 : Permutation l1 l2 -> sumWidths l1 = sumWidths l2.
Proof.
  induction 1 as [|x l1 l2 _ IH|x y l|l1 l2 l3 _ IH1 _ IH2].
  - reflexivity.
  - rewrite !sumWidths_cons, IH. reflexivity.
  - rewrite !sumWidths_cons. lia.
  - congruence.
Qed.

(** The accumulated width is the width of the selection. *)
Lemma pass2_sum w l vis acc :
  acc = sumWidths vis ->
  snd (pass2 w l (vis, acc)) = sumWidths (fst (pass2 w l (vis, acc))).
Proof.
  revert vis acc; induction l as [|c l IH]; intros vis acc Hacc; [exact Hacc|].
  rewrite pass2_cons.
  destruct (pass2_step_cases w vis acc c) as [-> | (-> & _)]; [auto|].
  apply IH. rewrite sumWidths_app, sumWidths_cons. unfold sumWidths at 2. simpl. lia.
Qed.

Lemma selected_sum master w :
  snd (pass2 w master (pass1 master)) = sumWidths (selected master w).
Proof. unfold selected. rewrite pass1_eq. apply pass2_sum. reflexivity. Qed.






Lemma field_inj master a b :
  List.NoDup (map field master) -> In a master -> In b master ->
  field a = field b -> a = b.
Proof.
  induction master as [|x master IH]; intros Hnd Ha Hb Hf; [destruct Ha|].
  simpl in Hnd. apply List.NoDup_cons_iff in Hnd as [Hnotin Hnd].
  destruct Ha as [<-|Ha], Hb as [<-|Hb]; auto.
  - exfalso. apply Hnotin. rewrite Hf. apply in_map, Hb.
  - exfalso. apply Hnotin. rewrite <- Hf. apply in_map, Ha.
Qed.

Lemma pass2_acc_mono w l vis acc :
  Forall (fun c => 0 <= colMinWidth c) l -> acc <= snd (pass2 w l (vis, acc)).
Proof.
  revert vis acc; induction l as [|c l IH]; intros vis acc Hpos; [simpl; lia|].
  inversion Hpos as [|? ? Hc Hl]; subst. rewrite pass2_cons.
  destruct (pass2_step_cases w vis acc c) as [-> | (-> & _)]; [auto|].
  specialize (IH (vis ++ [c]) (acc + colMinWidth c) Hl). lia.
Qed.

(** With unique fields and non-negative widths, an optional column that
    is left out would not fit beside the columns that are shown. *)
Lemma omitted_does_not_fit master w c :
  List.NoDup (map field master) ->
  Forall (fun a => 0 <= colMinWidth a) master ->
  In c master -> isMandatory c = false ->
  ~ In c (selectVisible master w) ->
  w <= sumWidths (selectVisible master w) + colMinWidth c.
Proof.
  intros Hnd Hpos Hin Hopt Hout.
  rewrite <- (sumWidths_perm _ _ (selectVisible_perm master w)), <- selected_sum.
  rewrite selectVisible_In in Hout. unfold selected in Hout.
  destruct (in_split c master Hin) as (pre & post & Hsplit).
  assert (Hpost : Forall (fun a => 0 <= colMinWidth a) post).
  { rewrite List.Forall_forall in *. intros a Ha. apply Hpos. rewrite Hsplit.
    apply in_or_app. right. right. exact Ha. }
  assert (Hrun : pass2 w master (pass1 master)
                 = pass2 w post (pass2_step w (pass2 w pre (pass1 master)) c)).
  { rewrite Hsplit at 1. rewrite pass2_app, pass2_cons. reflexivity. }
  rewrite Hrun in *.
  destruct (pass2 w pre (pass1 master)) as [vis used] eqn:Hpre.
  assert (Hvis : forall a, In a vis -> In a master).
  { intros a Ha. rewrite pass1_eq in Hpre.
    destruct (pass2_extends w pre (List.filter isMandatory master)
                (sumWidths (List.filter isMandatory master))) as (extra & E & F).
    rewrite Hpre in E. simpl in E. subst vis.
    apply in_app_or in Ha as [Ha|Ha].
    - apply filter_In in Ha as [? _]; assumption.
    - rewrite List.Forall_forall in F. destruct (F a Ha) as [Hap _].
      rewrite Hsplit. apply in_or_app. left. exact Hap. }
  assert (Hkeep : forall st, In c (fst st) -> In c (fst (pass2 w post st))).
  { intros [v a] Hc. destruct (pass2_extends w post v a) as (extra & -> & _).
    apply in_or_app. left. exact Hc. }
  destruct (findByField vis (field c)) as [c'|] eqn:Hf.
  - exfalso. destruct (findByField_Some _ _ _ Hf) as [Hc' Hfc].
    assert (c' = c) by (apply (field_inj master); auto). subst c'.
    apply Hout, Hkeep. rewrite pass2_step_present by congruence. exact Hc'.
  - rewrite pass2_step_absent in * by assumption.
    destruct (Z.gtb_spec w (used + colMinWidth c)) as [Hfit|Hfit].
    + exfalso. apply Hout, Hkeep. simpl. apply in_or_app. right. left. reflexivity.
    + pose proof (pass2_acc_mono w post vis used Hpost). lia.
Qed.

(** X2. For a master list with unique fields and non-negative minimum
    widths, a column without [mustShow] that [selectVisible] leaves out
    would not fit beside the columns it shows: the available width is at
    most their total minimum width plus the column's own. *)
Theorem selectVisible_omitted_does_not_fit
  (masterColumns : list ColumnDefinition) (w : Z) (c : ColumnDefinition) :
  uniqueFields masterColumns ->
  Forall (fun a => 0 <= colMinWidth a) masterColumns ->
  In c masterColumns ->
  mustShow c <> Some true ->
  ~ In c (selectVisible masterColumns w) ->
  w <= sumWidths (selectVisible masterColumns w) + colMinWidth c.
Proof.
  intros Hnd Hpos Hin Hopt Hout.
  apply omitted_does_not_fit; auto. apply isMandatory_false, Hopt.
Qed.

Lemma selectVisible_omitted_does_not_fit_witness :
  let cols := [ col "id" (Some true) (Some "60px"); col "email" None (Some "200px");
                col "phone" None (Some "30px") ] in
  uniqueFields cols
  /\ ~ In (col "email" None (Some "200px")) (selectVisible cols 200)
  /\ 200 <= sumWidths (selectVisible cols 200) + colMinWidth (col "email" None (Some "200px")).
Proof.
  intros cols.
  assert (H1 : uniqueFields cols).
  { unfold uniqueFields; simpl. repeat constructor; simpl; intuition discriminate. }
  assert (H2 : Forall (fun a => 0 <= colMinWidth a) cols).
  { repeat constructor; vm_compute; discriminate. }
  assert (H3 : In (col "email" None (Some "200px")) cols) by (right; left; reflexivity).
  assert (H4 : mustShow (col "email" None (Some "200px")) <> Some true) by discriminate.
  assert (H5 : ~ In (col "email" None (Some "200px")) (selectVisible cols 200)).
  { vm_compute. intros [H|[H|[]]]; discriminate H. }
  split; [exact H1|]. split; [exact H5|].
  apply (selectVisible_omitted_does_not_fit cols 200 _ H1 H2 H3 H4 H5).
Defined.

Lemma ColumnDefinition_eq_dec (a b : ColumnDefinition) : {a = b} + {a <> b}.
Proof.
  repeat decide equality; apply Bool.bool_dec || apply string_dec.
Qed.

Lemma sublist_In {A} (l m : list A) x : sublist l m -> In x l -> In x m.
Proof.
  induction 1 as [|y l m _ IH|y l m _ IH]; simpl; [tauto| |]; intuition.
Qed.

Lemma sublist_sumWidths_le l m :
  sublist l m -> Forall (fun a => 0 <= colMinWidth a) m -> sumWidths l <= sumWidths m.
Proof.
  induction 1 as [|y l m _ IH|y l m _ IH]; intros Hpos.
  - lia.
  - inversion Hpos; subst. rewrite !sumWidths_cons. specialize (IH ltac:(assumption)). lia.
  - inversion Hpos; subst. rewrite sumWidths_cons. specialize (IH ltac:(assumption)). lia.
Qed.

Lemma sublist_sumWidths_missing l m c :
  sublist l m -> Forall (fun a => 0 <= colMinWidth a) m ->
  In c m -> ~ In c l -> sumWidths l + colMinWidth c <= sumWidths m.
Proof.
  induction 1 as [|y l m Hs IH|y l m Hs IH]; intros Hpos Hin Hout.
  - destruct Hin.
  - inversion Hpos; subst. rewrite !sumWidths_cons.
    destruct Hin as [->|Hin]; [exfalso; apply Hout; left; reflexivity|].
    assert (~ In c l) by (intros H; apply Hout; right; exact H).
    specialize (IH ltac:(assumption) Hin H). lia.
  - inversion Hpos as [|? ? Hy Hm]; subst. rewrite sumWidths_cons.
    destruct Hin as [->|Hin].
    + pose proof (sublist_sumWidths_le l m Hs Hm). lia.
    + specialize (IH Hm Hin Hout). lia.
Qed.

Lemma mandatory_selected master w c :
  In c master -> isMandatory c = true -> In c (selectVisible master w).
Proof.
  intros Hin Hm. apply selectVisible_In.
  destruct (selected_eq master w) as (extra & -> & _).
  apply in_or_app. left. apply filter_In. split; assumption.
Qed.

Lemma enough_room_shows_all master w :
  List.NoDup (map field master) ->
  Forall (fun a => 0 <= colMinWidth a) master ->
  sumWidths master < w ->
  selectVisible master w = master.
Proof.
  intros Hnd Hpos Hroom.
  pose proof (selectVisible_sublist master w Hnd) as Hsub.
  apply sublist_same_length; [exact Hsub|].
  apply NoDup_incl_length; [apply NoDup_map_inv in Hnd; exact Hnd|].
  intros c Hin.
  destruct (isMandatory c) eqn:Hm; [apply mandatory_selected; assumption|].
  destruct (in_dec ColumnDefinition_eq_dec c (selectVisible master w)) as [H|H];
    [exact H|exfalso].
  pose proof (omitted_does_not_fit master w c Hnd Hpos Hin Hm H).
  pose proof (sublist_sumWidths_missing _ _ c Hsub Hpos Hin H). lia.
Qed.

(** X3. For a master list with unique fields and non-negative minimum
    widths, an available width strictly greater than the total minimum
    width of all columns makes [selectVisible] return the whole master
    list. *)
Theorem selectVisible_enough_room (masterColumns : list ColumnDefinition) (w : Z) :
  uniqueFields masterColumns ->
  Forall (fun a => 0 <= colMinWidth a) masterColumns ->
  sumWidths masterColumns < w ->
  selectVisible masterColumns w = masterColumns.
Proof. apply enough_room_shows_all. Qed.

Lemma selectVisible_enough_room_witness :
  let cols := [ col "email" None (Some "200px"); col "id" (Some true) (Some "60px");
                col "phone" None None ] in
  uniqueFields cols
  /\ sumWidths cols < 361
  /\ selectVisible cols 361 = cols.
Proof.
  intros cols.
  assert (H1 : uniqueFields cols).
  { unfold uniqueFields; simpl. repeat constructor; simpl; intuition discriminate. }
  assert (H2 : Forall (fun a => 0 <= colMinWidth a) cols).
  { repeat constructor; vm_compute; discriminate. }
  assert (H3 : sumWidths cols < 361) by (vm_compute; reflexivity).
  split; [exact H1|]. split; [exact H3|].
  apply (selectVisible_enough_room cols 361 H1 H2 H3).
Defined.

(** ** Selecting again from the selection *)

Lemma findByField_snoc_None vis x f :
  findByField vis f = None -> field x <> f -> findByField (vis ++ [x]) f = None.
Proof.
  rewrite !findByField_None. intros H Hx. apply Forall_app. split; [exact H|].
  constructor; [exact Hx|constructor].
Qed.

Lemma findByField_None_not_In vis c : findByField vis (field c) = None -> ~ In c vis.
Proof.
  rewrite findByField_None, List.Forall_forall. intros H Hin. exact (H c Hin eq_refl).
Qed.

Lemma head_field_fresh x l a :
  List.NoDup (map field (x :: l)) -> In a l -> field x <> field a.
Proof.
  simpl. intros Hnd Ha E. apply List.NoDup_cons_iff in Hnd as [Hnotin _].
  apply Hnotin. rewrite E. apply in_map, Ha.
Qed.

Lemma filter_sublist_same {A} (p : A -> bool) (l m : list A) :
  sublist l m -> List.NoDup m ->
  (forall c, In c m -> p c = true -> In c l) ->
  List.filter p l = List.filter p m.
Proof.
  induction 1 as [|x l m Hs IH|x l m Hs IH]; intros Hnd Hall.
  - reflexivity.
  - apply List.NoDup_cons_iff in Hnd as [Hx Hnd]. simpl. rewrite IH; auto.
    intros c Hc Hp. destruct (Hall c (or_intror Hc) Hp) as [<-|H]; [contradiction|exact H].
  - apply List.NoDup_cons_iff in Hnd as [Hx Hnd]. simpl.
    destruct (p x) eqn:Hp.
    + exfalso. apply Hx. apply (sublist_In l m); [exact Hs|].
      apply Hall; [left; reflexivity|exact Hp].
    + apply IH; auto. intros c Hc Hpc. apply Hall; [right; exact Hc|exact Hpc].
Qed.

Lemma filter_split_perm {A} (p : A -> bool) (l : list A) :
  Permutation l (List.filter p l ++ List.filter (fun x => negb (p x)) l).
Proof.
  induction l as [|x l IH]; simpl; [reflexivity|].
  destruct (p x); simpl.
  - apply perm_skip, IH.
  - rewrite <- Permutation_middle. apply perm_skip, IH.
Qed.

(** Run the second pass on a sublist [l] of [l0] that holds exactly the
    optional columns the pass selects from [l0]: it selects every optional
    column of [l] and accumulates the same width. *)
Lemma pass2_on_selection w l l0 :
  sublist l l0 ->
  forall vis0 vis acc,
    List.NoDup (map field l0) ->
    (forall a, In a l0 -> isMandatory a = false -> findByField vis0 (field a) = None) ->
    (forall a, In a l0 -> isMandatory a = false -> findByField vis (field a) = None) ->
    (forall c, In c l0 -> isMandatory c = false ->
               (In c (fst (pass2 w l0 (vis0, acc))) <-> In c l)) ->
    pass2 w l (vis, acc)
    = (vis ++ List.filter isOptional l, snd (pass2 w l0 (vis0, acc))).
Proof.
  induction 1 as [|x l l0 Hs IH|x l l0 Hs IH]; intros vis0 vis acc Hnd H0 H1 Hsel.
  - simpl. rewrite app_nil_r. reflexivity.
  - assert (Hnd' : List.NoDup (map field l0)).
    { simpl in Hnd. apply List.NoDup_cons_iff in Hnd as [_ ?]; assumption. }
    rewrite !pass2_cons. cbn [List.filter]. unfold isOptional at 1.
    destruct (isMandatory x) eqn:Hx; cbn [negb].
    + rewrite !pass2_step_mandatory by assumption.
      apply IH; auto.
      * intros a Ha. apply H0. right; exact Ha.
      * intros a Ha. apply H1. right; exact Ha.
      * intros c Hc Hopt. specialize (Hsel c (or_intror Hc) Hopt).
        rewrite pass2_cons, pass2_step_mandatory in Hsel by assumption.
        rewrite Hsel. split; [|right; assumption].
        intros [<-|Hcl]; [congruence|exact Hcl].
    + pose proof (H0 x (or_introl eq_refl) Hx) as Hf0.
      pose proof (H1 x (or_introl eq_refl) Hx) as Hf1.
      pose proof (Hsel x (or_introl eq_refl) Hx) as Hselx.
      rewrite pass2_cons in Hselx.
      rewrite !pass2_step_absent in * by assumption.
      destruct (Z.gtb_spec w (acc + colMinWidth x)) as [Hfit|Hfit].
      * rewrite (IH (vis0 ++ [x]) (vis ++ [x]) (acc + colMinWidth x)); auto.
        -- rewrite <- app_assoc. reflexivity.
        -- intros a Ha Hopt. apply findByField_snoc_None.
           ++ apply H0; [right; exact Ha|exact Hopt].
           ++ apply (head_field_fresh x l0 a Hnd Ha).
        -- intros a Ha Hopt. apply findByField_snoc_None.
           ++ apply H1; [right; exact Ha|exact Hopt].
           ++ apply (head_field_fresh x l0 a Hnd Ha).
        -- intros c Hc Hopt. specialize (Hsel c (or_intror Hc) Hopt).
           rewrite pass2_cons, pass2_step_absent in Hsel by assumption.
           destruct (Z.gtb_spec w (acc + colMinWidth x)); [|lia].
           rewrite Hsel. split; [|right; assumption].
           intros [<-|Hcl]; [|exact Hcl].
           exfalso. apply (head_field_fresh x l0 x Hnd Hc). reflexivity.
      * exfalso. destruct Hselx as [_ Hselx].
        specialize (Hselx (or_introl eq_refl)).
        destruct (pass2_extends w l0 vis0 acc) as (extra & E & F).
        rewrite E in Hselx. apply in_app_or in Hselx as [Hin|Hin].
        -- exact (findByField_None_not_In vis0 x Hf0 Hin).
        -- rewrite List.Forall_forall in F. destruct (F x Hin) as [Hxl _].
           apply (head_field_fresh x l0 x Hnd Hxl). reflexivity.
  - assert (Hnd' : List.NoDup (map field l0)).
    { simpl in Hnd. apply List.NoDup_cons_iff in Hnd as [_ ?]; assumption. }
    rewrite pass2_cons.
    destruct (isMandatory x) eqn:Hx.
    + rewrite pass2_step_mandatory by assumption.
      apply IH; auto.
      * intros a Ha. apply H0. right; exact Ha.
      * intros a Ha. apply H1. right; exact Ha.
      * intros c Hc Hopt. specialize (Hsel c (or_intror Hc) Hopt).
        rewrite pass2_cons, pass2_step_mandatory in Hsel by assumption. exact Hsel.
    + pose proof (H0 x (or_introl eq_refl) Hx) as Hf0.
      pose proof (Hsel x (or_introl eq_refl) Hx) as Hselx.
      rewrite pass2_cons in Hselx.
      assert (Hxl : ~ In x l).
      { intros Hin. apply (head_field_fresh x l0 x Hnd); [|reflexivity].
        apply (sublist_In l l0); assumption. }
      rewrite pass2_step_absent in * by assumption.
      destruct (Z.gtb_spec w (acc + colMinWidth x)) as [Hfit|Hfit].
      * exfalso. apply Hxl, Hselx.
        destruct (pass2_extends w l0 (vis0 ++ [x]) (acc + colMinWidth x))
          as (extra & -> & _).
        apply in_or_app. left. apply in_or_app. right. left. reflexivity.
      * apply IH; auto.
        -- intros a Ha. apply H0. right; exact Ha.
        -- intros a Ha. apply H1. right; exact Ha.
        -- intros c Hc Hopt. specialize (Hsel c (or_intror Hc) Hopt).
           rewrite pass2_cons, pass2_step_absent in Hsel by assumption.
           destruct (Z.gtb_spec w (acc + colMinWidth x)); [lia|]. exact Hsel.
Qed.

Lemma mandatory_field_fresh master a :
  List.NoDup (map field master) -> In a master -> isMandatory a = false ->
  findByField (List.filter isMandatory master) (field a) = None.
Proof.
  intros Hnd Ha Hopt. apply findByField_None, List.Forall_forall.
  intros v Hv Hf. apply filter_In in Hv as [Hv Hm].
  assert (v = a) by (apply (field_inj master); auto). congruence.
Qed.

Lemma selectVisible_again master w :
  List.NoDup (map field master) ->
  selectVisible (selectVisible master w) w = selectVisible master w.
Proof.
  intros Hnd. set (out := selectVisible master w).
  assert (Hsub : sublist out master) by (apply selectVisible_sublist, Hnd).
  assert (Hndm : List.NoDup master) by (apply NoDup_map_inv in Hnd; exact Hnd).
  assert (Hndo : List.NoDup (map field out)).
  { eapply Permutation_NoDup; [apply Permutation_map, selectVisible_perm|].
    apply selected_fields_NoDup, Hnd. }
  assert (Hmand : List.filter isMandatory out = List.filter isMandatory master).
  { apply filter_sublist_same; auto. intros c Hc Hm.
    apply mandatory_selected; assumption. }
  assert (Hsel : selected out w
                 = List.filter isMandatory out ++ List.filter isOptional out).
  { unfold selected. rewrite pass1_eq, Hmand.
    rewrite (pass2_on_selection w out master Hsub
               (List.filter isMandatory master) (List.filter isMandatory master)
               (sumWidths (List.filter isMandatory master))); auto.
    - intros a Ha Hopt. apply mandatory_field_fresh; assumption.
    - intros a Ha Hopt. apply mandatory_field_fresh; assumption.
    - intros c Hc Hopt. rewrite <- pass1_eq. symmetry. apply selectVisible_In. }
  apply sublist_same_length; [apply selectVisible_sublist, Hndo|].
  rewrite <- (Permutation_length (selectVisible_perm out w)), Hsel.
  unfold isOptional.
  rewrite <- (Permutation_length (filter_split_perm isMandatory out)). lia.
Qed.

(** X4. For a master list with unique fields, selecting again from the
    output at the same width changes nothing:
    [selectVisible (selectVisible masterColumns w) w = selectVisible masterColumns w]. *)
Theorem selectVisible_stable (masterColumns : list ColumnDefinition) (w : Z) :
  uniqueFields masterColumns ->
  selectVisible (selectVisible masterColumns w) w = selectVisible masterColumns w.
Proof. apply selectVisible_again. Qed.

Lemma selectVisible_stable_witness :
  let cols := [ col "email" None (Some "200px"); col "id" (Some true) (Some "60px");
                col "phone" None (Some "30px"); col "note" None (Some "-20px") ] in
  uniqueFields cols
  /\ selectVisible (selectVisible cols 100) 100 = selectVisible cols 100.
Proof.
  intros cols.
  assert (H1 : uniqueFields cols).
  { unfold uniqueFields; simpl. repeat constructor; simpl; intuition discriminate. }
  split; [exact H1|]. apply (selectVisible_stable cols 100 H1).
Defined.

(** ** The sort on a list that is already in master order *)

Lemma sort_id {A} (cmp : A -> A -> Z) l :
  StronglySorted (fun a b => cmp a b <= 0) l -> sort cmp l = l.
Proof.
  induction 1 as [|x l Hs IH Hall]; simpl; [reflexivity|].
  rewrite IH. destruct l as [|y l]; [reflexivity|]. simpl.
  inversion Hall as [|? ? Hxy _]; subst.
  destruct (Z.leb_spec (cmp x y) 0); [reflexivity|lia].
Qed.

Lemma StronglySorted_sublist {A} (R : A -> A -> Prop) l m :
  sublist l m -> StronglySorted R m -> StronglySorted R l.
Proof.
  induction 1 as [|x l m Hs IH|x l m Hs IH]; intros Hm.
  - constructor.
  - inversion Hm as [|? ? Hm' Hall]; subst. constructor; [auto|].
    rewrite List.Forall_forall in *. intros a Ha. apply Hall.
    apply (sublist_In l m); assumption.
  - inversion Hm; subst. auto.
Qed.

(** With unique fields the master list stands in its own order. *)
Lemma master_sorted master :
  List.NoDup (map field master) -> StronglySorted (indexBefore master) master.
Proof.
  induction master as [|c0 rest IH]; intros Hnd; [constructor|].
  assert (Hnd' : List.NoDup (map field rest)).
  { simpl in Hnd. apply List.NoDup_cons_iff in Hnd as [_ ?]; assumption. }
  constructor.
  - apply (StronglySorted_In_impl (indexBefore rest)); [|apply IH, Hnd'].
    intros a b Ha Hb. unfold indexBefore.
    rewrite !(masterIndex_tail c0 rest) by auto. lia.
  - rewrite List.Forall_forall. intros a Ha. unfold indexBefore.
    rewrite (masterIndex_tail c0 rest a) by auto.
    rewrite masterIndex_cons, String.eqb_refl.
    pose proof (masterIndex_found rest a Ha). lia.
Qed.

Lemma sort_sublist master l :
  List.NoDup (map field master) -> sublist l master ->
  sort (compareColumns master) l = l.
Proof.
  intros Hnd Hs. apply sort_id.
  apply (StronglySorted_In_impl (indexBefore master)).
  - intros a b _ _. unfold indexBefore, compareColumns. lia.
  - apply (StronglySorted_sublist _ l master Hs), master_sorted, Hnd.
Qed.

(** ** Columns of one width *)

Lemma firstn_quotient_succ w acc d :
  0 < d -> w > acc + d ->
  Z.to_nat ((w - acc - 1) / d) = S (Z.to_nat ((w - (acc + d) - 1) / d)).
Proof.
  intros Hd Hw.
  replace (w - acc - 1) with ((w - (acc + d) - 1) + 1 * d) by lia.
  rewrite Z.div_add by lia.
  assert (0 <= (w - (acc + d) - 1) / d) by (apply Z.div_pos; lia).
  lia.
Qed.

Lemma firstn_quotient_zero w acc d :
  0 < d -> w <= acc + d -> Z.to_nat ((w - acc - 1) / d) = 0%nat.
Proof.
  intros Hd Hw.
  assert ((w - acc - 1) / d < 1) by (apply Z.div_lt_upper_bound; lia).
  lia.
Qed.

(** On optional columns of one width [d] and distinct new fields the
    second pass selects a prefix: as many columns as there are multiples
    of [d] strictly below the room that is left. *)
Lemma pass2_uniform w d l :
  0 < d ->
  forall vis acc,
    Forall (fun c => isMandatory c = false /\ colMinWidth c = d) l ->
    List.NoDup (map field l) ->
    (forall a, In a l -> findByField vis (field a) = None) ->
    fst (pass2 w l (vis, acc)) = vis ++ firstn (Z.to_nat ((w - acc - 1) / d)) l.
Proof.
  intros Hd. induction l as [|c l IH]; intros vis acc Hall Hnd Hfresh.
  - rewrite firstn_nil, app_nil_r. reflexivity.
  - inversion Hall as [|? ? [Hopt Hwd] Hall']; subst.
    assert (Hnd' : List.NoDup (map field l)).
    { simpl in Hnd. apply List.NoDup_cons_iff in Hnd as [_ ?]; assumption. }
    rewrite pass2_cons, pass2_step_absent; auto; [|apply Hfresh; left; reflexivity].
    destruct (Z.gtb_spec w (acc + colMinWidth c)) as [Hfit|Hfit].
    + rewrite IH; auto.
      * rewrite (firstn_quotient_succ w acc (colMinWidth c)) by lia.
        rewrite firstn_cons, <- app_assoc. reflexivity.
      * intros a Ha. apply findByField_snoc_None.
        -- apply Hfresh. right; exact Ha.
        -- apply (head_field_fresh c l a Hnd Ha).
    + rewrite firstn_quotient_zero by lia. rewrite pass2_stuck.
      * simpl. rewrite app_nil_r. reflexivity.
      * intros a Ha _. rewrite List.Forall_forall in Hall'.
        destruct (Hall' a Ha) as [_ ->]. lia.
Qed.

Lemma same_width_prefix master w d :
  0 < d ->
  List.NoDup (map field master) ->
  Forall (fun c => isMandatory c = false /\ colMinWidth c = d) master ->
  selectVisible master w = firstn (Z.to_nat ((w - 1) / d)) master.
Proof.
  intros Hd Hnd Hall. rewrite selectVisible_eq, pass1_eq.
  rewrite filter_none
    by (eapply List.Forall_impl; [|exact Hall]; simpl; intros a [? _]; assumption).
  rewrite (pass2_uniform w d master Hd [] _ Hall Hnd) by reflexivity.
  replace (w - sumWidths [] - 1) with (w - 1) by (unfold sumWidths; simpl; lia).
  simpl app. apply sort_sublist; [exact Hnd|]. apply sublist_take.
Qed.

Lemma derived_fields toUpperCase this firstItem ks :
  map field (map (deriveColumn toUpperCase this firstItem) ks) = ks.
Proof. rewrite map_map. simpl. apply map_id. Qed.

Lemma derived_uniform toUpperCase this firstItem ks :
  Forall (fun c => isMandatory c = false /\ colMinWidth c = 100)
    (map (deriveColumn toUpperCase this firstItem) ks).
Proof.
  rewrite List.Forall_forall. intros c Hc. apply in_map_iff in Hc as (k & <- & _).
  split; reflexivity.
Qed.

(** X5. For a sample record with distinct keys, [selectVisible] applied to
    the inferred columns returns their first [(w - 1) / 100] columns
    (rounded down, none when [w <= 100]): inferred columns are all
    optional and 100 wide, so a column is shown exactly when its rank
    times 100 is strictly below the width. *)
Theorem selectVisible_inferred_prefix (toUpperCase : string -> string)
  (sample : JsRecord) (enableFilter : bool) (w : Z) :
  List.NoDup (keys sample) ->
  selectVisible (infer toUpperCase (Some sample) enableFilter) w
  = firstn (Z.to_nat ((w - 1) / 100)) (infer toUpperCase (Some sample) enableFilter).
Proof.
  intros Hnd. unfold infer, deriveColumnsFromData. simpl.
  apply same_width_prefix; [lia| |apply derived_uniform].
  rewrite derived_fields. exact Hnd.
Qed.

Lemma selectVisible_inferred_prefix_witness :
  let sample : JsRecord :=
    [ ("id", VNumber (NumFinite 1 0)); ("name", VString "Jane");
      ("active", VBoolean true); ("note", VNull) ] in
  List.NoDup (keys sample)
  /\ selectVisible (infer asciiToUpperCase (Some sample) true) 300
     = firstn 2 (infer asciiToUpperCase (Some sample) true).
Proof.
  intros sample.
  assert (H : List.NoDup (keys sample)).
  { simpl. repeat constructor; simpl; intuition discriminate. }
  split; [exact H|].
  apply (selectVisible_inferred_prefix asciiToUpperCase sample true 300 H).
Defined.

(** ** Displayed columns *)

Lemma length_positive {A} (l : list A) :
  (Z.of_nat (length l) >? 0) = match l with [] => false | _ :: _ => true end.
Proof. destruct l; simpl; [reflexivity|]. apply Z.gtb_lt. lia. Qed.

Lemma updateResponsiveColumns_responsive this :
  responsiveDisplayColumns (updateResponsiveColumns this)
  = match allMasterColumns this with
    | Some master => selectVisible master (offsetWidth this)
    | None => []
    end.
Proof.
  unfold updateResponsiveColumns.
  destruct (allMasterColumns this) as [[|c l]|]; try reflexivity.
  rewrite selectVisible_eq.
  destruct (pass2 (offsetWidth this) (c :: l) (pass1 (c :: l))); reflexivity.
Qed.

Lemma updateResponsiveColumns_master this :
  allMasterColumns (updateResponsiveColumns this) = allMasterColumns this.
Proof.
  unfold updateResponsiveColumns.
  destruct (allMasterColumns this) as [[|c l]|] eqn:E; try (simpl; congruence).
  destruct (pass2 (offsetWidth this) (c :: l) (pass1 (c :: l))). simpl. exact E.
Qed.

Lemma displayColumns_after_update this :
  displayColumns (updateResponsiveColumns this)
  = match allMasterColumns this with
    | None => []
    | Some master =>
        match selectVisible master (offsetWidth this) with
        | [] => master
        | shown => shown
        end
    end.
Proof.
  unfold displayColumns.
  rewrite updateResponsiveColumns_responsive, updateResponsiveColumns_master.
  rewrite length_positive.
  destruct (allMasterColumns this) as [master|]; [|reflexivity].
  destruct (selectVisible master (offsetWidth this)); reflexivity.
Qed.

(** X6. After [updateResponsiveColumns], [displayColumns] is empty only
    when there is no master column: when no column is selected the getter
    falls back to the whole master list. *)
Theorem displayColumns_empty_iff (this : Component) :
  displayColumns (updateResponsiveColumns this) = []
  <-> allMasterColumns this = None \/ allMasterColumns this = Some [].
Proof.
  rewrite displayColumns_after_update.
  destruct (allMasterColumns this) as [[|c l]|].
  - split; [auto|]. intros _. rewrite selectVisible_eq. reflexivity.
  - destruct (selectVisible (c :: l) (offsetWidth this));
      split; try discriminate; intros [H|H]; discriminate H.
  - split; auto.
Qed.

Lemma no_room_empty master w :
  Forall (fun c => isMandatory c = false) master ->
  Forall (fun c => 0 <= colMinWidth c) master ->
  w <= 0 ->
  selectVisible master w = [].
Proof.
  intros Hopt Hpos Hw. rewrite selectVisible_eq, pass1_eq.
  rewrite filter_none by exact Hopt.
  rewrite pass2_stuck; [reflexivity|].
  intros c Hin _. rewrite List.Forall_forall in Hpos.
  specialize (Hpos c Hin). unfold sumWidths; simpl. lia.
Qed.

(** X7. When the master list has no [mustShow] column, its minimum widths
    are non-negative and the element is at most 0 wide, so that
    [updateResponsiveColumns] selects no column, [displayColumns] returns
    every master column. *)
Theorem displayColumns_all_when_none_fits (this : Component)
  (master : list ColumnDefinition) :
  allMasterColumns this = Some master ->
  Forall (fun c => mustShow c <> Some true) master ->
  Forall (fun c => 0 <= colMinWidth c) master ->
  offsetWidth this <= 0 ->
  responsiveDisplayColumns (updateResponsiveColumns this) = []
  /\ displayColumns (updateResponsiveColumns this) = master.
Proof.
  intros Hm Hopt Hpos Hw.
  assert (Hsel : selectVisible master (offsetWidth this) = []).
  { apply no_room_empty; auto.
    eapply List.Forall_impl; [|exact Hopt]. intros c. apply isMandatory_false. }
  rewrite updateResponsiveColumns_responsive, displayColumns_after_update, Hm, Hsel.
  split; reflexivity.
Qed.

Lemma displayColumns_all_when_none_fits_witness :
  let master := [ col "email" None (Some "200px"); col "phone" None None ] in
  let this := {| data := None; enableColumnFiltering := None; derivedColumns := [];
                 allMasterColumns := Some master;
                 responsiveDisplayColumns := [col "email" None (Some "200px")];
                 offsetWidth := 0 |} in
  offsetWidth this <= 0
  /\ responsiveDisplayColumns (updateResponsiveColumns this) = []
  /\ displayColumns (updateResponsiveColumns this) = master.
Proof.
  intros master this.
  assert (H1 : allMasterColumns this = Some master) by reflexivity.
  assert (H2 : Forall (fun c => mustShow c <> Some true) master).
  { repeat constructor; simpl; discriminate. }
  assert (H3 : Forall (fun c => 0 <= colMinWidth c) master).
  { repeat constructor; vm_compute; discriminate. }
  assert (H4 : offsetWidth this <= 0) by (simpl; lia).
  split; [exact H4|].
  apply (displayColumns_all_when_none_fits this master H1 H2 H3 H4).
Defined.

(** ** Refreshing the columns *)

Lemma updateMasterColumns_master columnDefs this :
  allMasterColumns (updateMasterColumns columnDefs this)
  = Some match columnDefs with
         | Some (c :: l) => c :: l
         | _ => derivedColumns this
         end.
Proof.
  unfold updateMasterColumns.
  destruct (_ && _); reflexivity.
Qed.

Lemma updateMasterColumns_width columnDefs this :
  offsetWidth (updateMasterColumns columnDefs this) = offsetWidth this.
Proof.
  unfold updateMasterColumns.
  destruct (_ && _); reflexivity.
Qed.

Lemma deriveColumnsFromData_width toUpperCase this :
  offsetWidth (deriveColumnsFromData toUpperCase this) = offsetWidth this.
Proof.
  unfold deriveColumnsFromData. destruct (data this) as [[|r l]|]; reflexivity.
Qed.

Lemma refreshColumns_eq toUpperCase columnDefs this :
  let master :=
    match columnDefs with
    | Some (c :: l) => c :: l
    | _ => derivedColumns (deriveColumnsFromData toUpperCase this)
    end in
  allMasterColumns (refreshColumns toUpperCase columnDefs this) = Some master
  /\ responsiveDisplayColumns (refreshColumns toUpperCase columnDefs this)
     = selectVisible master (offsetWidth this).
Proof.
  unfold refreshColumns.
  rewrite updateResponsiveColumns_master, updateResponsiveColumns_responsive.
  rewrite updateMasterColumns_master, updateMasterColumns_width.
  destruct columnDefs as [[|c l]|]; simpl;
    rewrite ?deriveColumnsFromData_width; split; reflexivity.
Qed.

(** X8. After the column refresh of [ngOnInit] and [ngOnChanges], the
    master list is the explicit column definitions when there are some and
    the columns derived from the first data row otherwise, and the
    responsive columns are [selectVisible] of that master list at the
    element's width, whatever master, derived and responsive columns the
    component held before. *)
Theorem refreshColumns_result (toUpperCase : string -> string)
  (columnDefs : option (list ColumnDefinition)) (this : Component) :
  let master :=
    match columnDefs with
    | Some (c :: l) => c :: l
    | _ => match data this with
           | Some (firstItem :: _) =>
               map (deriveColumn toUpperCase this firstItem) (keys firstItem)
           | _ => []
           end
    end in
  allMasterColumns (refreshColumns toUpperCase columnDefs this) = Some master
  /\ responsiveDisplayColumns (refreshColumns toUpperCase columnDefs this)
     = selectVisible master (offsetWidth this).
Proof.
  pose proof (refreshColumns_eq toUpperCase columnDefs this) as H.
  unfold deriveColumnsFromData in H.
  destruct columnDefs as [[|c l]|]; destruct (data this) as [[|r rest]|]; exact H.
Qed.

(** X9. For a component without column definitions whose first data row
    has distinct keys, the columns displayed after the refresh are the
    first [(w - 1) / 100] derived columns (rounded down), and all derived
    columns when that number is 0. *)
Theorem refreshColumns_derived_display (toUpperCase : string -> string)
  (columnDefs : option (list ColumnDefinition)) (this : Component)
  (firstItem : JsRecord) (rest : list JsRecord) :
  columnDefs = None \/ columnDefs = Some [] ->
  data this = Some (firstItem :: rest) ->
  List.NoDup (keys firstItem) ->
  displayColumns (refreshColumns toUpperCase columnDefs this)
  = let derived := map (deriveColumn toUpperCase this firstItem) (keys firstItem) in
    match Z.to_nat ((offsetWidth this - 1) / 100) with
    | O => derived
    | S k => firstn (S k) derived
    end.
Proof.
  intros Hdefs Hdata Hnd.
  destruct (refreshColumns_eq toUpperCase columnDefs this) as [Hm Hr].
  assert (Hd : derivedColumns (deriveColumnsFromData toUpperCase this)
               = map (deriveColumn toUpperCase this firstItem) (keys firstItem)).
  { unfold deriveColumnsFromData. rewrite Hdata. reflexivity. }
  assert (Hmaster : match columnDefs with
                    | Some (c :: l) => c :: l
                    | _ => derivedColumns (deriveColumnsFromData toUpperCase this)
                    end = map (deriveColumn toUpperCase this firstItem) (keys firstItem)).
  { destruct Hdefs as [-> | ->]; exact Hd. }
  rewrite Hmaster in Hm, Hr.
  rewrite (same_width_prefix _ _ 100) in Hr;
    [|lia|rewrite derived_fields; exact Hnd|apply derived_uniform].
  unfold displayColumns. rewrite Hm, Hr, length_positive. cbv zeta.
  destruct (Z.to_nat ((offsetWidth this - 1) / 100)) as [|k]; [reflexivity|].
  destruct (map (deriveColumn toUpperCase this firstItem) (keys firstItem));
    reflexivity.
Qed.

Lemma refreshColumns_derived_display_witness :
  let firstItem : JsRecord :=
    [ ("id", VNumber (NumFinite 1 0)); ("name", VString "Jane"); ("active", VBoolean true) ] in
  let this := {| data := Some [firstItem]; enableColumnFiltering := Some false;
                 derivedColumns := []; allMasterColumns := None;
                 responsiveDisplayColumns := []; offsetWidth := 250 |} in
  List.NoDup (keys firstItem)
  /\ map field (displayColumns (refreshColumns asciiToUpperCase None this))
     = ["id"; "name"].
Proof.
  intros firstItem this.
  assert (H : List.NoDup (keys firstItem)).
  { simpl. repeat constructor; simpl; intuition discriminate. }
  split; [exact H|].
  exact (f_equal (map field)
           (refreshColumns_derived_display asciiToUpperCase None this firstItem []
              (or_introl eq_refl) eq_refl H)).
Defined.

(** * Parsing widths *)

Lemma digit_not_space c :
  isDigit c = true ->
  isStrWhiteSpaceChar c = false /\ Ascii.eqb c "-" = false /\ Ascii.eqb c "+" = false.
Proof.
  destruct c as [[] [] [] [] [] [] [] []]; vm_compute; intros H;
    try discriminate H; repeat split.
Qed.

(** [parseInt] with the test on the sign written with [Ascii.eqb]. *)
Lemma parseInt_eq s :
  parseInt s
  = match trimStart s with
    | EmptyString => None
    | String c r =>
        let sign := if Ascii.eqb c "-" then -1 else 1 in
        let body := if Ascii.eqb c "-" || Ascii.eqb c "+" then r else String c r in
        match digitPrefix body with
        | [] => None
        | ds => Some (sign * digitsValue ds)
        end
    end.
Proof.
  unfold parseInt. destruct (trimStart s) as [|c r]; [reflexivity|].
  destruct c as [[] [] [] [] [] [] [] []]; reflexivity.
Qed.

Lemma digitPrefix_digits s : Forall (fun c => isDigit c = true) (digitPrefix s).
Proof.
  induction s as [|c s IH]; simpl; [constructor|].
  destruct (isDigit c) eqn:Hc; constructor; assumption.
Qed.

Lemma digitsValue_from_nonneg ds acc :
  Forall (fun c => isDigit c = true) ds -> 0 <= acc ->
  0 <= fold_left (fun a c => 10 * a + digitValue c) ds acc.
Proof.
  revert acc; induction ds as [|c ds IH]; intros acc Hds Hacc; [exact Hacc|].
  inversion Hds as [|? ? Hc Hds']; subst. simpl. apply IH; [exact Hds'|].
  unfold isDigit in Hc. apply andb_true_iff in Hc as [H1 H2].
  apply Z.leb_le in H1, H2. unfold digitValue. lia.
Qed.

Lemma digitsValue_nonneg ds :
  Forall (fun c => isDigit c = true) ds -> 0 <= digitsValue ds.
Proof. intros H. apply digitsValue_from_nonneg; [exact H|lia]. Qed.

Lemma digitPrefix_app ds unit :
  Forall (fun c => isDigit c = true) ds ->
  match unit with String c _ => isDigit c = false | EmptyString => True end ->
  digitPrefix (string_of_list_ascii ds ++ unit) = ds.
Proof.
  intros Hds Hunit. induction Hds as [|c ds Hc _ IH]; simpl.
  - destruct unit as [|c u]; [reflexivity|]. simpl. rewrite Hunit. reflexivity.
  - rewrite Hc, IH. reflexivity.
Qed.

(** X10. A [minWidth] made of decimal digits that write a number of at
    most [2 ^ 53], followed by a unit that does not begin with a digit,
    parses to that number, which is not negative, whatever the unit is. *)
Theorem parseMinWidth_digits_unit (ds : list ascii) (unit : string) :
  ds <> [] ->
  Forall (fun c => isDigit c = true) ds ->
  digitsValue ds <= 2 ^ 53 ->
  match unit with String c _ => isDigit c = false | EmptyString => True end ->
  parseMinWidth (string_of_list_ascii ds ++ unit) = digitsValue ds
  /\ 0 <= digitsValue ds.
Proof.
  intros Hne Hds _ Hunit. split; [|apply digitsValue_nonneg, Hds].
  destruct ds as [|c ds]; [congruence|].
  pose proof (digitPrefix_app (c :: ds) unit Hds Hunit) as Hprefix.
  inversion Hds as [|? ? Hc _]; subst.
  destruct (digit_not_space c Hc) as (Hws & Hminus & Hplus).
  unfold parseMinWidth. rewrite parseInt_eq. simpl string_of_list_ascii in *.
  simpl append in *. simpl trimStart. rewrite Hws. cbv zeta.
  rewrite Hminus, Hplus. simpl orb. cbv iota. rewrite Hprefix. lia.
Qed.

Lemma parseMinWidth_digits_unit_witness :
  digitsValue ["1"; "5"; "0"]%char <= 2 ^ 53
  /\ parseMinWidth "150px" = 150 /\ 0 <= 150.
Proof.
  assert (H1 : ["1"; "5"; "0"]%char <> []) by discriminate.
  assert (H2 : Forall (fun c => isDigit c = true) ["1"; "5"; "0"]%char).
  { repeat constructor. }
  assert (H3 : digitsValue ["1"; "5"; "0"]%char <= 2 ^ 53).
  { vm_compute. discriminate. }
  assert (H4 : isDigit "p" = false) by reflexivity.
  split; [exact H3|].
  exact (parseMinWidth_digits_unit ["1"; "5"; "0"]%char "px" H1 H2 H3 H4).
Defined.

(** X11. [parseMinWidth] returns a negative number only for a string
    whose first character after the leading white space is a minus sign. *)
Theorem parseMinWidth_negative_needs_minus (minWidth : string) :
  parseMinWidth minWidth < 0 ->
  exists rest, trimStart minWidth = String "-" rest.
Proof.
  unfold parseMinWidth. rewrite parseInt_eq.
  destruct (trimStart minWidth) as [|c r]; [lia|]. cbv zeta.
  destruct (Ascii.eqb_spec c "-") as [->|Hc].
  - intros _. exists r. reflexivity.
  - intros H. exfalso.
    pose proof (digitPrefix_digits (if false || Ascii.eqb c "+" then r else String c r))
      as Hds.
    destruct (digitPrefix (if false || Ascii.eqb c "+" then r else String c r))
      as [|d ds] eqn:E; [lia|].
    pose proof (digitsValue_nonneg (d :: ds) Hds). lia.
Qed.

Lemma parseMinWidth_negative_needs_minus_witness :
  parseMinWidth "  -50px" < 0 /\ exists rest, trimStart "  -50px" = String "-" rest.
Proof.
  assert (H : parseMinWidth "  -50px" < 0) by reflexivity.
  split; [exact H|]. exact (parseMinWidth_negative_needs_minus "  -50px" H).
Defined.

(** * Selection *)

(** X12. Emitting the selection and reading it back as the input gives
    the selected rows again in multiple mode, and at most the first
    selected row in single mode; in single mode a single row or [null]
    passed in is emitted back as it is, and so is an array in any other
    mode. *)
Theorem selection_round_trip (selectionMode : option SelectionMode)
  (selectedRows : list JsRecord) :
  syncSelectionFromInput (emitSelectionChange selectionMode selectedRows)
  = match selectionMode with
    | Some SingleMode => firstn 1 selectedRows
    | _ => selectedRows
    end
  /\ (forall row,
         emitSelectionChange (Some SingleMode) (syncSelectionFromInput (SelRow row))
         = SelRow row)
  /\ emitSelectionChange (Some SingleMode) (syncSelectionFromInput SelNull) = SelNull
  /\ (forall rows,
         selectionMode <> Some SingleMode ->
         emitSelectionChange selectionMode (syncSelectionFromInput (SelRows rows))
         = SelRows rows).
Proof.
  split; [|split; [reflexivity|split; [reflexivity|]]].
  - destruct selectionMode as [[|]|]; try reflexivity.
    destruct selectedRows; reflexivity.
  - intros rows Hmode. destruct selectionMode as [[|]|]; try reflexivity.
    congruence.
Qed.

Lemma selection_round_trip_witness :
  let a : JsRecord := [("id", VNumber (NumFinite 1 0))] in
  let b : JsRecord := [("id", VNumber (NumFinite 2 0))] in
  syncSelectionFromInput (emitSelectionChange (Some SingleMode) [a; b]) = [a]
  /\ emitSelectionChange (Some MultipleMode) (syncSelectionFromInput (SelRows [a; b]))
     = SelRows [a; b].
Proof.
  intros a b.
  destruct (selection_round_trip (Some SingleMode) [a; b]) as (H1 & _).
  destruct (selection_round_trip (Some MultipleMode) [a; b]) as (_ & _ & _ & H4).
  split; [exact H1|]. apply H4. discriminate.
Defined.

(** * Export *)

Lemma truthy_not_empty v : jsTruthy v = true -> isEmptyString v = false.
Proof.
  destruct v; simpl; try reflexivity. apply negb_true_iff.
Qed.

Lemma isFailed_truthy item :
  Exporter.isFailed item = jsTruthy (getProp item "errorMessage").
Proof.
  unfold Exporter.isFailed. cbv zeta.
  destruct (jsTruthy (getProp item "errorMessage")) eqn:T; [|exact T].
  rewrite (truthy_not_empty _ T). reflexivity.
Qed.

Lemma isFailed_not_successful item :
  Exporter.isFailed item = negb (Exporter.isSuccessful item).
Proof.
  rewrite isFailed_truthy. unfold Exporter.isSuccessful. cbv zeta.
  destruct (jsTruthy (getProp item "errorMessage")) eqn:T; [|reflexivity].
  rewrite (truthy_not_empty _ T). reflexivity.
Qed.

Lemma filter_sublist {A} (p : A -> bool) l : sublist (List.filter p l) l.
Proof.
  induction l as [|x l IH]; simpl; [constructor|].
  destruct (p x); [apply sublist_skip|apply sublist_cons]; exact IH.
Qed.

(** X13. The default exports of the successful and of the failed rows
    split the data: each emits a subsequence of the data, no row is in
    both, and together they hold every row of the data exactly as often as
    the data does. A row counts as failed when its [errorMessage] is
    truthy and as successful otherwise. *)
Theorem export_successful_failed_partition
  (displayed : list ColumnDefinition) (this : Exporter.State) :
  let successful :=
    Exporter.performExport displayed
      (Exporter.selectDefaultExport ExportSuccessful this) in
  let failed :=
    Exporter.performExport displayed
      (Exporter.selectDefaultExport ExportFailed this) in
  Permutation (Exporter.data this) (successful ++ failed)
  /\ sublist successful (Exporter.data this)
  /\ sublist failed (Exporter.data this)
  /\ (forall row, In row successful -> ~ In row failed)
  /\ (forall row, In row failed <->
                  In row (Exporter.data this)
                  /\ jsTruthy (getProp row "errorMessage") = true).
Proof.
  unfold Exporter.performExport, Exporter.selectDefaultExport. simpl.
  assert (Hfilter : List.filter Exporter.isFailed (Exporter.data this)
                    = List.filter (fun r => negb (Exporter.isSuccessful r))
                        (Exporter.data this)).
  { apply filter_ext. intros r. apply isFailed_not_successful. }
  split; [|split; [|split; [|split]]].
  - rewrite Hfilter. apply filter_split_perm.
  - apply filter_sublist.
  - apply filter_sublist.
  - intros row H1 H2. apply filter_In in H1 as [_ H1], H2 as [_ H2].
    rewrite isFailed_not_successful, H1 in H2. discriminate H2.
  - intros row. rewrite filter_In.
    assert (E : Exporter.isFailed row = jsTruthy (getProp row "errorMessage"))
      by apply isFailed_truthy.
    rewrite E. tauto.
Qed.

(** X14. With an export definition labelled as the export of the
    filtered rows (and whose file name does not contain "selected"),
    [performExport] after [onFilter] emits the filtered rows when there
    are some, and every row of the data when the table reported no
    filtered value or an empty one. *)
Theorem export_filtered_falls_back
  (displayed : list ColumnDefinition) (this : Exporter.State)
  (def : ExportDefinition.t) (filteredValue : option (list JsRecord)) :
  ExportDefinition.label def = "common.actions.exportFiltered" ->
  Exporter.fileNameIncludes def "selected" = false ->
  Exporter.performExport displayed
    (Exporter.onFilter filteredValue (Exporter.selectExportDefinition def this))
  = match filteredValue with
    | Some (row :: rows) => row :: rows
    | _ => Exporter.data this
    end.
Proof.
  intros Hlabel Hname.
  unfold Exporter.performExport, Exporter.onFilter, Exporter.selectExportDefinition.
  simpl. rewrite Hlabel, Hname. simpl.
  destruct filteredValue as [[|row rows]|]; simpl; rewrite ?length_positive;
    try reflexivity.
  destruct (Exporter.data this); reflexivity.
Qed.

Lemma export_filtered_falls_back_witness :
  let a : JsRecord := [("id", VNumber (NumFinite 1 0))] in
  let this := Exporter.mk [a] [] [] None ExportAll in
  let def := ExportDefinition.mk "common.actions.exportFiltered" (Some "filtered-rows")
               None None in
  Exporter.performExport [] (Exporter.onFilter (Some []) (Exporter.selectExportDefinition def this))
  = [a].
Proof.
  intros a this def.
  exact (export_filtered_falls_back [] this def (Some []) eq_refl eq_refl).
Defined.

(** * Action buttons *)

Lemma panel_button_disabled rows def :
  ActionButton.disabled (buildActionsPanelButton rows def) = true
  <-> isToolbarActionDisabled rows def = true
      \/ (ActionButtonDefinition.requiresSelection def = Some true /\ rows = [])
      \/ (ActionButtonDefinition.requiresSingleSelection def = Some true
          /\ length rows <> 1%nat).
Proof.
  unfold buildActionsPanelButton, isToolbarActionDisabled. simpl.
  assert (H0 : (Z.of_nat (length rows) =? 0) = true <-> rows = []).
  { rewrite Z.eqb_eq. destruct rows; simpl; split; try discriminate; try reflexivity; lia. }
  assert (H1 : negb (Z.of_nat (length rows) =? 1) = true <-> length rows <> 1%nat).
  { rewrite negb_true_iff, Z.eqb_neq. lia. }
  destruct (ActionButtonDefinition.requiresSelection def) as [[|]|];
    destruct (ActionButtonDefinition.requiresSingleSelection def) as [[|]|];
    simpl;
    destruct (Z.of_nat (length rows) =? 0) eqn:E0;
    destruct (negb (Z.of_nat (length rows) =? 1)) eqn:E1;
    destruct (ActionButtonDefinition.disabled def) as [[[|]|f]|];
    try destruct (f rows);
    split; intros H; try reflexivity; try discriminate H; auto;
    try (right; left; split; [reflexivity|apply H0; reflexivity]);
    try (right; right; split; [reflexivity|apply H1; reflexivity]);
    try (destruct H as [H|[[H H']|[H H']]];
         try discriminate H;
         try (apply H0 in H'; discriminate H');
         try (apply H1 in H'; discriminate H')).
Qed.

Lemma buildActionsPanelButtons_length defs rows :
  length (buildActionsPanelButtons (Some defs) rows) = length defs.
Proof.
  unfold buildActionsPanelButtons. destruct defs as [|d defs]; [reflexivity|].
  apply length_map.
Qed.

(** X15. [buildActionsPanelButtons] makes one button per configured
    action: as many buttons as actions, each at the index of its action
    and with its label. The button is disabled exactly when the toolbar
    test [isToolbarActionDisabled] disables the action, or the action
    requires a selection and no row is selected, or it requires a single
    selection and the number of selected rows is not 1. *)
Theorem buildActionsPanelButtons_disabled
  (defs : list ActionButtonDefinition.t) (selectedRows : list JsRecord) :
  length (buildActionsPanelButtons (Some defs) selectedRows) = length defs
  /\ forall (i : nat) (def : ActionButtonDefinition.t),
       nth_error defs i = Some def ->
       exists button,
         nth_error (buildActionsPanelButtons (Some defs) selectedRows) i = Some button
         /\ ActionButton.label button = ActionButtonDefinition.label def
         /\ (ActionButton.disabled button = true
             <-> isToolbarActionDisabled selectedRows def = true
                 \/ (ActionButtonDefinition.requiresSelection def = Some true
                     /\ selectedRows = [])
                 \/ (ActionButtonDefinition.requiresSingleSelection def = Some true
                     /\ length selectedRows <> 1%nat)).
Proof.
  split; [apply buildActionsPanelButtons_length|].
  intros i def Hdef. exists (buildActionsPanelButton selectedRows def).
  split; [|split; [reflexivity|apply panel_button_disabled]].
  unfold buildActionsPanelButtons. destruct defs as [|d defs].
  - destruct i; discriminate Hdef.
  - apply map_nth_error, Hdef.
Qed.

Lemma buildActionsPanelButtons_disabled_witness :
  let open := ActionButtonDefinition.mk "open" "pi pi-external-link" None
                (Some (DisabledFlag false)) None (Some true) (Some Primary) in
  let a : JsRecord := [("id", VNumber (NumFinite 1 0))] in
  length (buildActionsPanelButtons (Some [open]) [a; a]) = 1%nat
  /\ exists button,
       nth_error (buildActionsPanelButtons (Some [open]) [a; a]) 0 = Some button
       /\ ActionButton.disabled button = true.
Proof.
  intros open a.
  destruct (buildActionsPanelButtons_disabled [open] [a; a]) as (Hlen & Hat).
  split; [exact Hlen|].
  destruct (Hat 0%nat open eq_refl) as (button & Hb & _ & Hd).
  exists button. split; [exact Hb|]. apply Hd. right; right.
  split; [reflexivity|discriminate].
Defined.

(** * Cells *)

Lemma orString_nonempty x fallback :
  fallback <> EmptyString -> orString x fallback <> EmptyString.
Proof.
  intros H. destruct x as [[|c s]|]; simpl; [exact H|discriminate|exact H].
Qed.

Lemma booleanText_nonempty format value : booleanText format value <> EmptyString.
Proof.
  unfold booleanText. destruct (jsTruthy value); apply orString_nonempty; discriminate.
Qed.

(** X16. For a column of type [boolean] without [transform] and without a
    transformer found by key (no key, an empty key, no table of
    transformers, or no entry for the key in the table), [getCellData]
    returns a text that is never empty: the part of the format chosen by
    the truthiness of the row's value, or "Ja" / "Nein" when that part is
    missing or empty. A [customRender] on such a column is not called. *)
Theorem getCellData_boolean {R D : Type} (parseDate : string -> option D)
  (transformers : option (string -> option (JsRecord -> R)))
  (rowData : JsRecord) (column : Cell.Column) :
  Cell.type column = Some TBoolean ->
  Cell.transform column = None ->
  (forall key table,
      Cell.transformKey column = Some key -> transformers = Some table ->
      key = EmptyString \/ table key = None) ->
  Cell.getCellData parseDate transformers rowData column
  = Cell.Text (booleanText (Cell.format column) (getProp rowData (Cell.field column)))
  /\ booleanText (Cell.format column) (getProp rowData (Cell.field column))
     <> EmptyString.
Proof.
  intros Htype Htransform Hkey. split; [|apply booleanText_nonempty].
  assert (Hplain : Cell.getPlainCellData parseDate rowData column
                   = Cell.Text (R := R)
                       (booleanText (Cell.format column)
                          (getProp rowData (Cell.field column)))).
  { unfold Cell.getPlainCellData, Cell.isType. rewrite Htype.
    destruct (getProp rowData (Cell.field column)); reflexivity. }
  unfold Cell.getCellData. rewrite Htransform.
  assert (Hnone : match Cell.transformKey column, transformers with
                  | Some (String c k), Some table => table (String c k)
                  | _, _ => None
                  end = None).
  { destruct (Cell.transformKey column) as [[|c k]|]; try reflexivity.
    destruct transformers as [table|]; [|reflexivity].
    destruct (Hkey (String c k) table eq_refl eq_refl) as [H|H];
      [discriminate H|exact H]. }
  rewrite Hnone.
  destruct (Cell.customRender column); [|exact Hplain].
  unfold Cell.isType at 1. rewrite Htype. exact Hplain.
Qed.

Lemma getCellData_boolean_witness :
  let column : Cell.Column (R := string) :=
    Cell.mk "active" (Some TBoolean) (Some "Active/Inactive") (Some "status") None
      (Some (fun _ => "custom")) in
  let transformers : option (string -> option (JsRecord -> string)) :=
    Some (fun key => if String.eqb key "code" then Some (fun _ => "resolved") else None) in
  Cell.getCellData (D := Z) (fun _ => None) transformers
    [("active", VBoolean false)] column
  = Cell.Text "Inactive".
Proof.
  intros column transformers.
  assert (Hkey : forall key table,
             Cell.transformKey column = Some key -> transformers = Some table ->
             key = EmptyString \/ table key = None).
  { intros key table Hk Ht. injection Hk as <-. injection Ht as <-.
    right. reflexivity. }
  destruct (getCellData_boolean (R := string) (D := Z) (fun _ => None) transformers
              [("active", VBoolean false)] column eq_refl eq_refl Hkey)
    as [H _].
  exact H.
Defined.

Lemma split_no_separator sep s :
  Forall (fun c => c <> sep) (list_ascii_of_string s) -> split sep s = [s].
Proof.
  induction s as [|c s IH]; simpl; intros H; [reflexivity|].
  inversion H as [|? ? Hc Hs]; subst.
  destruct (Ascii.eqb_spec c sep); [contradiction|]. rewrite (IH Hs). reflexivity.
Qed.

Lemma split_first sep a b :
  Forall (fun c => c <> sep) (list_ascii_of_string a) ->
  split sep (a ++ String sep b)%string = a :: split sep b.
Proof.
  induction a as [|c a IH]; simpl; intros H.
  - rewrite Ascii.eqb_refl. reflexivity.
  - inversion H as [|? ? Hc Ha]; subst.
    destruct (Ascii.eqb_spec c sep); [contradiction|]. rewrite (IH Ha). reflexivity.
Qed.

(** X17. With a format [a/b] whose two parts are not empty and hold no
    slash, a boolean cell shows [a] for a truthy value and [b] for a falsy
    one. *)
Theorem booleanText_two_parts (a b : string) (value : JsValue) :
  a <> EmptyString -> b <> EmptyString ->
  Forall (fun c => c <> "/"%char) (list_ascii_of_string a) ->
  Forall (fun c => c <> "/"%char) (list_ascii_of_string b) ->
  booleanText (Some (a ++ String "/" b)%string) value
  = if jsTruthy value then a else b.
Proof.
  intros Ha Hb Hsa Hsb. unfold booleanText. simpl option_map.
  rewrite (split_first "/" a b Hsa), (split_no_separator "/" b Hsb).
  destruct (jsTruthy value); simpl.
  - destruct a; [congruence|reflexivity].
  - destruct b; [congruence|reflexivity].
Qed.

Lemma booleanText_two_parts_witness :
  booleanText (Some "Yes/No") (VNumber (NumFinite 0 0)) = "No".
Proof.
  assert (H1 : "Yes" <> EmptyString) by discriminate.
  assert (H2 : "No" <> EmptyString) by discriminate.
  assert (H3 : Forall (fun c => c <> "/"%char) (list_ascii_of_string "Yes")).
  { repeat constructor; discriminate. }
  assert (H4 : Forall (fun c => c <> "/"%char) (list_ascii_of_string "No")).
  { repeat constructor; discriminate. }
  exact (booleanText_two_parts "Yes" "No" (VNumber (NumFinite 0 0)) H1 H2 H3 H4).
Defined.
